(** * simulate_pbft.py: PBFT against CE-PBFT under Byzantine voters

    A shallow embedding of [simulate_pbft.py].  The script draws from the
    process-wide generator of [random] and reads and advances the wall clock
    through [time]; both are threaded explicitly through a [world].

    Numbers.  Python's [int] is [Z].  The float arithmetic of line 63,
    [int(n_nodes * byzantine_ratio)], is IEEE binary64 arithmetic as the
    Standard Library specifies it ([spec_float], [SFmul]), with the
    exceptions of [int()].  Latencies, clock readings and the quorum test
    are modelled by exact rationals ([Q]); module [Binary64] re-computes the
    quorum test in binary64 on the sizes a population can have. *)

From Stdlib Require Import ZArith QArith Qround Lia Lqa List Permutation Bool.
From Stdlib Require Import Floats.PrimFloat Numbers.Cyclic.Int63.Uint63.
From Stdlib Require Import Floats.SpecFloat.
From stdpp Require Import base list.

Close Scope Q_scope.
Local Open Scope Z_scope.

(** ** The world: generator state and wall clock *)

(** [entropy k] is the [k]-th raw value the generator delivers; [drawn]
    counts how many have been taken.  [now] is the wall clock; [skew k] is
    the extra time that has passed, beyond the sleeps, when the clock is read
    for the [k]-th time ([reads] counts the readings). *)
Record world := World {
  entropy : nat -> N;
  drawn : nat;
  now : Q;
  skew : nat -> Q;
  reads : nat
}.

Definition M (A : Type) : Type := world -> A * world.

Definition ret {A} (a : A) : M A := fun w => (a, w).

Definition bind {A B} (m : M A) (k : A -> M B) : M B :=
  fun w => let (a, w') := m w in k a w'.

Notation "'let*' x := m 'in' k" := (bind m (fun x => k))
  (at level 10, x name, m at level 200, k at level 200,
   format "'[v' 'let*'  x  :=  m  'in' '/' k ']'").
Notation "m ;; k" := (bind m (fun _ => k))
  (at level 100, k at level 200, right associativity).

(** [for x in xs: ys.append(f(x))], the list comprehension: left to right. *)
Fixpoint mapM {A B} (f : A -> M B) (xs : list A) : M (list B) :=
  match xs with
  | [] => ret []
  | x :: xs' => let* y := f x in let* ys := mapM f xs' in ret (y :: ys)
  end.

(** The exceptions the script can raise by itself: [ZeroDivisionError] by
    its divisions, [ValueError] and [OverflowError] by line 63. *)
Inductive exn := ZeroDivisionError | ValueError | OverflowError.

Inductive result (A : Type) :=
| Return (a : A)
| Raise (e : exn).
Arguments Return {A} a.
Arguments Raise {A} e.

(** ** [random] *)

Definition next_draw : M N := fun w =>
  (entropy w (drawn w),
   {| entropy := entropy w; drawn := S (drawn w);
      now := now w; skew := skew w; reads := reads w |}).

(** [random._randbelow(n)]: a value in [0, n). *)
Definition randbelow (n : nat) : M nat :=
  let* d := next_draw in ret (N.to_nat (d mod N.of_nat n)%N).

(** [random.random()]: 53 random bits scaled into [0, 1). *)
Definition random_random : M Q :=
  let* d := next_draw in ret (Z.of_N (d mod 2 ^ 53)%N # 2 ^ 53)%Q.

(** [random.uniform(a, b)] is [a + (b - a) * self.random()]. *)
Definition random_uniform (a b : Q) : M Q :=
  let* u := random_random in ret (a + (b - a) * u)%Q.

(** [random.choice(seq)] is [seq[self._randbelow(len(seq))]]; [d] stands for
    the [IndexError] of an empty [seq], which the script never passes. *)
Definition random_choice {A} (d : A) (seq : list A) : M A :=
  let* i := randbelow (length seq) in ret (default d (seq !! i)).

(** [x[i], x[j] = x[j], x[i]]: the right-hand side is read first, then
    [x[i]] and [x[j]] are stored in that order.  Out of range Python raises
    [IndexError]; [random.shuffle] never gets there. *)
Definition swap {A} (x : list A) (i j : nat) : list A :=
  match x !! j, x !! i with
  | Some xj, Some xi => <[j:=xi]> (<[i:=xj]> x)
  | _, _ => x
  end.

(** [for i in reversed(range(1, len(x))): j = randbelow(i + 1); swap]. *)
Fixpoint shuffle_from {A} (i : nat) (x : list A) : M (list A) :=
  match i with
  | O => ret x
  | S i' => let* j := randbelow (i + 1) in shuffle_from i' (swap x i j)
  end.

Definition random_shuffle {A} (x : list A) : M (list A) :=
  shuffle_from (length x - 1)%nat x.

(** ** [time] *)

Definition time_time : M Q := fun w =>
  let t := Qred (now w + skew w (reads w)) in
  (t, {| entropy := entropy w; drawn := drawn w;
         now := t; skew := skew w; reads := S (reads w) |}).

Definition time_sleep (secs : Q) : M unit := fun w =>
  (tt, {| entropy := entropy w; drawn := drawn w;
          now := Qred (now w + secs); skew := skew w; reads := reads w |}).

(** ** Python arithmetic *)

(** A [float] is an IEEE binary64 value: [spec_float] at precision 53 and
    [emax = 1024].  [x * y] on floats is correctly rounded. *)
Definition float_mul : spec_float -> spec_float -> spec_float :=
  SFmul 53 1024.

(** The conversion of the int operand of [n * x]: correctly rounded, and
    [OverflowError] when [n] is too large for a float. *)
Definition float_of_int (n : Z) : result spec_float :=
  match binary_normalize 53 1024 n 0 false with
  | S754_infinity _ => Raise OverflowError
  | x => Return x
  end.

(** The float literal whose decimal value is [a / b]: the binary64 value
    nearest to it. *)
Definition float_literal (a b : Z) : spec_float :=
  SFdiv 53 1024 (binary_normalize 53 1024 a 0 false)
                (binary_normalize 53 1024 b 0 false).

(** [int(x)] on a float truncates toward zero; it raises [ValueError] on a
    NaN and [OverflowError] on an infinity. *)
Definition py_int (x : spec_float) : result Z :=
  match x with
  | S754_nan => Raise ValueError
  | S754_infinity _ => Raise OverflowError
  | S754_zero _ => Return 0
  | S754_finite s m e =>
      Return (cond_Zopp s
                (match e with
                 | Z.neg p => Z.pos m / 2 ^ Z.pos p
                 | _ => Z.pos m * 2 ^ e
                 end))
  end.

(** The rational a finite float stands for. *)
Definition float_value (x : spec_float) : Q :=
  match x with
  | S754_finite s m e =>
      match e with
      | Z.neg p => cond_Zopp s (Z.pos m) # 2 ^ p
      | _ => inject_Z (cond_Zopp s (Z.pos m) * 2 ^ e)
      end
  | _ => 0
  end%Q.

(** [0.0 <= r <= 1.0]: [r] is a zero, or positive with [m * 2^e <= 1]. *)
Definition in_unit_interval (r : spec_float) : bool :=
  match r with
  | S754_zero _ => true
  | S754_finite false m e => (e <=? 0) && (Z.pos m <=? 2 ^ (- e))
  | _ => false
  end.

(** What [k] right shifts of the rounding keep of a mantissa [M]: the
    shifted mantissa times [2^k] is at most [M], and less when a bit was
    shifted out. *)
Definition shr_inv (M k : Z) (mrs : shr_record) : Prop :=
  0 <= shr_m mrs
  /\ shr_m mrs * 2 ^ k <= M
  /\ (orb (shr_r mrs) (shr_s mrs) = true -> shr_m mrs * 2 ^ k < M).

(** [a / b] with a float divisor. *)
Definition py_truediv (a : Z) (b : Q) : result Q :=
  if Qeq_bool b 0%Q then Raise ZeroDivisionError
  else Return (inject_Z a / b)%Q.

(** [sum(votes)] over booleans counts the [True]s. *)
Fixpoint py_sum (votes : list bool) : Z :=
  match votes with
  | [] => 0
  | v :: vs => (if v then 1 else 0) + py_sum vs
  end.

(** [range(n)] has [max(n, 0)] elements. *)
Definition range_len (n : Z) : nat := Z.to_nat n.

(** The dummy transaction [{}]. *)
Definition transaction_t : Type := unit.

(** ** class Node *)

Record Node := mkNode { is_byzantine : bool }.

Module NodeM.

Definition simulate_latency (self : Node) : M Q :=
  if is_byzantine self then random_uniform (1 # 20)%Q (1 # 5)%Q
  else random_uniform (1 # 100)%Q (1 # 20)%Q.

Definition vote (self : Node) (transaction : transaction_t) : M bool :=
  let* latency := simulate_latency self in
  time_sleep latency ;;
  if is_byzantine self then random_choice true [true; false]
  else ret true.

End NodeM.

(** [approved_votes >= (2/3) * len(nodes)] *)
Definition quorum (approved_votes : Z) (size : nat) : bool :=
  Qle_bool ((2 # 3) * inject_Z (Z.of_nat size))%Q (inject_Z approved_votes).

(** ** class PBFTProtocol *)

Module PBFTProtocol.

Record t := init { nodes : list Node }.

Definition consensus (self : t) (transaction : transaction_t) : M bool :=
  let* votes := mapM (fun node => NodeM.vote node transaction) (nodes self) in
  let approved_votes := py_sum votes in
  if quorum approved_votes (length (nodes self)) then ret true
  else ret false.

End PBFTProtocol.

(** ** class CEPBFTProtocol *)

Module CEPBFTProtocol.

Record t := mk { nodes : list Node; trusted_nodes : list Node }.

Definition classify_nodes (nodes : list Node) : list Node :=
  filter (fun node => negb (is_byzantine node) = true) nodes.

Definition init (nodes : list Node) : t :=
  {| nodes := nodes; trusted_nodes := classify_nodes nodes |}.

Definition consensus (self : t) (transaction : transaction_t) : M bool :=
  if Nat.eqb (length (trusted_nodes self)) 0 then ret false
  else
    let* votes := mapM (fun node => NodeM.vote node transaction)
                     (trusted_nodes self) in
    let approved_votes := py_sum votes in
    if quorum approved_votes (length (trusted_nodes self)) then ret true
    else ret false.

End CEPBFTProtocol.

(** ** [simulate] *)

(** What [simulate] needs of its [protocol_class] argument: the constructor
    and the [consensus] method of the instances. *)
Record protocol_class := ProtocolClass {
  instance : Type;
  construct : list Node -> instance;
  consensus : instance -> transaction_t -> M bool
}.

Definition PBFT : protocol_class :=
  {| instance := PBFTProtocol.t;
     construct := PBFTProtocol.init;
     consensus := PBFTProtocol.consensus |}.

Definition CEPBFT : protocol_class :=
  {| instance := CEPBFTProtocol.t;
     construct := CEPBFTProtocol.init;
     consensus := CEPBFTProtocol.consensus |}.

(** Line 63: [n_byzantine = int(n_nodes * byzantine_ratio)], with
    [n_nodes] an int and [byzantine_ratio] a float as in every call of the
    script: the int is converted to a float, the product is rounded, the
    result is truncated. *)
Definition n_byzantine (n_nodes : Z) (byzantine_ratio : spec_float)
  : result Z :=
  match float_of_int n_nodes with
  | Raise e => Raise e
  | Return x => py_int (float_mul x byzantine_ratio)
  end.

(** The two [append] loops, for the value [k] of [n_byzantine], before the
    shuffle. *)
Definition fresh_nodes (n_nodes k : Z) : list Node :=
  replicate (range_len k) (mkNode true)
  ++ replicate (range_len (n_nodes - k)) (mkNode false).

(** Lines 62 and 64 to 68: the population a call of [simulate] builds once
    line 63 has given [k]. *)
Definition build_population (n_nodes k : Z) : M (list Node) :=
  random_shuffle (fresh_nodes n_nodes k).

(** [for _ in range(n_transactions): if protocol.consensus({}): ... += 1] *)
Fixpoint rounds (P : protocol_class) (protocol : instance P) (k : nat)
  (correct_transactions : Z) : M Z :=
  match k with
  | O => ret correct_transactions
  | S k' =>
      let* ok := consensus P protocol tt in
      rounds P protocol k'
        (if ok then correct_transactions + 1 else correct_transactions)
  end.

(** Lines 70 to 83: the rest of [simulate], on the population built. *)
Definition drive (P : protocol_class) (nodes : list Node)
  (n_transactions : Z) : M (result (Q * Z * Z)) :=
  let protocol := construct P nodes in
  let* start_time := time_time in
  let* correct_transactions :=
    rounds P protocol (range_len n_transactions) 0 in
  let* end_time := time_time in
  let elapsed_time := (end_time - start_time)%Q in
  match py_truediv correct_transactions elapsed_time with
  | Return throughput =>
      ret (Return (throughput, correct_transactions, n_transactions))
  | Raise e => ret (Raise e)
  end.

Definition simulate (P : protocol_class) (n_nodes : Z)
  (byzantine_ratio : spec_float) (n_transactions : Z)
  : M (result (Q * Z * Z)) :=
  match n_byzantine n_nodes byzantine_ratio with
  | Raise e => ret (Raise e)
  | Return k =>
      let* nodes := build_population n_nodes k in
      drive P nodes n_transactions
  end.

(** ** The sweep at module level *)

Definition n_nodes : Z := 20.
Definition n_transactions : Z := 100.
Definition byzantine_ratios : list spec_float :=
  [float_literal 0 1; float_literal 1 10; float_literal 1 5;
   float_literal 3 10; float_literal 2 5].

(** The populations of the two [simulate] calls of one iteration of the
    sweep: the second call starts in the world the first one leaves. *)
Definition sweep_populations (ratio : spec_float) (w : world)
  : result (list Node * list Node) :=
  match n_byzantine n_nodes ratio with
  | Raise e => Raise e
  | Return k =>
      let pbft_nodes := fst (build_population n_nodes k w) in
      let w' := snd (simulate PBFT n_nodes ratio n_transactions w) in
      let cepbft_nodes := fst (build_population n_nodes k w') in
      Return (pbft_nodes, cepbft_nodes)
  end.

(** ** Binary64: the quorum test of the script, recomputed *)

Module Binary64.

Definition of_Z (z : Z) : float := PrimFloat.of_uint63 (Uint63.of_Z z).

(** [approved_votes >= (2/3) * len(self.nodes)] in binary64. *)
Definition quorum (approved_votes size : Z) : bool :=
  PrimFloat.leb (PrimFloat.mul (PrimFloat.div (of_Z 2) (of_Z 3)) (of_Z size))
                (of_Z approved_votes).

End Binary64.

(** The binary64 test and the rational one agree on every vote count of
    every population of at most [bound] nodes. *)
Definition quorum_agrees_upto (bound : nat) : bool :=
  forallb (fun size =>
    forallb (fun approved =>
      Bool.eqb (Binary64.quorum (Z.of_nat approved) (Z.of_nat size))
               (quorum (Z.of_nat approved) size))
      (seq 0 (S size)))
    (seq 0 (S bound)).

(** ** Observations on a population *)

Fixpoint faulty_count (nodes : list Node) : nat :=
  match nodes with
  | [] => O
  | node :: rest =>
      if is_byzantine node then S (faulty_count rest) else faulty_count rest
  end.

Fixpoint honest_count (nodes : list Node) : nat :=
  match nodes with
  | [] => O
  | node :: rest =>
      if is_byzantine node then honest_count rest else S (honest_count rest)
  end.

(** The votes one call of [consensus] collects from [nodes]. *)
Definition collect_votes (nodes : list Node) (transaction : transaction_t)
  : M (list bool) :=
  mapM (fun node => NodeM.vote node transaction) nodes.

(** ** What line 81 divides *)

(** [correct_transactions] and [elapsed_time] as [drive] has them when it
    reaches [throughput = correct_transactions / elapsed_time]. *)
Definition correct_transactions_of (P : protocol_class) (nodes : list Node)
  (n_transactions : Z) (w : world) : Z :=
  fst (rounds P (construct P nodes) (range_len n_transactions) 0
         (snd (time_time w))).

Definition elapsed_time_of (P : protocol_class) (nodes : list Node)
  (n_transactions : Z) (w : world) : Q :=
  let after_rounds :=
    snd (rounds P (construct P nodes) (range_len n_transactions) 0
           (snd (time_time w))) in
  (fst (time_time after_rounds) - fst (time_time w))%Q.

(** A clock set back by ten seconds between its first two readings. *)
Definition w_set_back : world :=
  {| entropy := fun k => (N.of_nat k * N.of_nat k + 7 * N.of_nat k + 3)%N;
     drawn := 0;
     now := (1700000000 # 1)%Q;
     skew := fun k => match k with 1%nat => (-10 # 1)%Q | _ => (0 # 1)%Q end;
     reads := 0 |}.

(** ** Sample worlds *)

(** A generator and a clock that reads the same before and after a stretch
    of code that does not sleep (the resolution of [time.time()] is finite). *)
Definition w_still : world :=
  {| entropy := fun k => (N.of_nat k * N.of_nat k + 7 * N.of_nat k + 3)%N;
     drawn := 0;
     now := (1700000000 # 1)%Q;
     skew := fun _ => (0 # 1)%Q;
     reads := 0 |}.

(** The same generator, with a clock that has moved on by a millisecond at
    each reading. *)
Definition w_ticking : world :=
  {| entropy := fun k => (N.of_nat k * N.of_nat k + 7 * N.of_nat k + 3)%N;
     drawn := 0;
     now := (1700000000 # 1)%Q;
     skew := fun _ => (1 # 1000)%Q;
     reads := 0 |}.

(** Populations of three nodes, for the quorum boundary. *)
Definition two_honest_one_faulty : list Node :=
  [mkNode false; mkNode true; mkNode false].
Definition one_honest_two_faulty : list Node :=
  [mkNode true; mkNode false; mkNode true].

(** A generator whose every value is odd: [random.choice([True, False])]
    picks index 1, so every Byzantine vote is [False]. *)
Definition w_dissent : world :=
  {| entropy := fun k => (2 * N.of_nat k + 1)%N;
     drawn := 0;
     now := (0 # 1)%Q;
     skew := fun _ => (0 # 1)%Q;
     reads := 0 |}.

(** ** The sweep loop, lines 91 to 104 *)

Record series := Series {
  pbft_throughputs : list Q;
  cepbft_throughputs : list Q;
  pbft_correct_ratios : list Q;
  cepbft_correct_ratios : list Q
}.

(** [a / b] on two ints. *)
Definition py_truediv_int (a b : Z) : result Q :=
  if Z.eqb b 0 then Raise ZeroDivisionError
  else Return (inject_Z a / inject_Z b)%Q.

(** One iteration: the two [simulate] calls, the two throughput appends,
    the two ratio appends.  An exception ends the script. *)
Definition sweep_body (ratio : spec_float) (acc : series)
  : M (result series) :=
  let* pbft := simulate PBFT n_nodes ratio n_transactions in
  match pbft with
  | Raise e => ret (Raise e)
  | Return (pbft_tp, pbft_correct, pbft_total) =>
      let* cepbft := simulate CEPBFT n_nodes ratio n_transactions in
      match cepbft with
      | Raise e => ret (Raise e)
      | Return (cepbft_tp, cepbft_correct, cepbft_total) =>
          match py_truediv_int pbft_correct pbft_total,
                py_truediv_int cepbft_correct cepbft_total with
          | Return pbft_ratio, Return cepbft_ratio =>
              ret (Return
                     {| pbft_throughputs := pbft_throughputs acc ++ [pbft_tp];
                        cepbft_throughputs :=
                          cepbft_throughputs acc ++ [cepbft_tp];
                        pbft_correct_ratios :=
                          pbft_correct_ratios acc ++ [pbft_ratio];
                        cepbft_correct_ratios :=
                          cepbft_correct_ratios acc ++ [cepbft_ratio] |})
          | Raise e, _ => ret (Raise e)
          | _, Raise e => ret (Raise e)
          end
      end
  end.

Fixpoint sweep_loop (ratios : list spec_float) (acc : series)
  : M (result series) :=
  match ratios with
  | [] => ret (Return acc)
  | ratio :: rest =>
      let* r := sweep_body ratio acc in
      match r with
      | Return acc' => sweep_loop rest acc'
      | Raise e => ret (Raise e)
      end
  end.

Definition sweep : M (result series) :=
  sweep_loop byzantine_ratios
    {| pbft_throughputs := []; cepbft_throughputs := [];
       pbft_correct_ratios := []; cepbft_correct_ratios := [] |}.

(** What one iteration of the sweep appends for [ratio], as a row
    (PBFT throughput, CE-PBFT throughput, PBFT ratio, CE-PBFT ratio), when
    the clock does not run backwards. *)
Definition sweep_row_ok (ratio : spec_float) (row : Q * Q * Q * Q) : Prop :=
  let '(pbft_tp, cepbft_tp, pbft_ratio, cepbft_ratio) := row in
  (0 <= pbft_tp)%Q
  /\ (0 < cepbft_tp)%Q
  /\ cepbft_ratio = (inject_Z 100 / inject_Z 100)%Q
  /\ exists pbft_correct,
       pbft_ratio = (inject_Z pbft_correct / inject_Z 100)%Q
       /\ 0 <= pbft_correct <= 100
       /\ (forall k,
              n_byzantine n_nodes ratio = Return k -> 0 <= k ->
              2 * n_nodes <= 3 * (n_nodes - k) ->
              pbft_correct = 100).

Definition extend (acc : series) (rows : list (Q * Q * Q * Q)) : series :=
  {| pbft_throughputs :=
       pbft_throughputs acc ++ map (fun row => fst (fst (fst row))) rows;
     cepbft_throughputs :=
       cepbft_throughputs acc ++ map (fun row => snd (fst (fst row))) rows;
     pbft_correct_ratios :=
       pbft_correct_ratios acc ++ map (fun row => snd (fst row)) rows;
     cepbft_correct_ratios :=
       cepbft_correct_ratios acc ++ map (fun row => snd row) rows |}.

(** ** Conditions on the world *)

(** The wall clock never reads less than the time slept so far. *)
Definition clock_forward (w : world) : Prop :=
  forall k, (0 <= skew w k)%Q.

(** Every value the generator delivers is odd: each Byzantine vote is
    [False]. *)
Definition always_dissent (w : world) : Prop :=
  forall k, N.odd (entropy w k) = true.

(** * Properties *)

Lemma binary64_quorum_agrees : quorum_agrees_upto 200 = true.
Proof. vm_compute. reflexivity. Qed.

(** The ratios of the sweep, as binary64 values, and what line 63 makes of
    them for the twenty nodes of the script. *)
Lemma byzantine_ratios_binary64 :
  byzantine_ratios
  = [S754_zero false;
     S754_finite false 7205759403792794 (-56);
     S754_finite false 7205759403792794 (-55);
     S754_finite false 5404319552844595 (-54);
     S754_finite false 7205759403792794 (-54)].
Proof. vm_compute. reflexivity. Qed.

(** Other ratios used below: 0.29, 0.5, 1.0 and 1.5. *)
Lemma float_literals_binary64 :
  float_literal 29 100 = S754_finite false 5224175567749775 (-54)
  /\ float_literal 1 2 = S754_finite false 4503599627370496 (-53)
  /\ float_literal 1 1 = S754_finite false 4503599627370496 (-52)
  /\ float_literal 3 2 = S754_finite false 6755399441055744 (-52).
Proof. repeat split; vm_compute; reflexivity. Qed.

Lemma sweep_counts :
  map (n_byzantine n_nodes) byzantine_ratios
  = [Return 0; Return 2; Return 4; Return 6; Return 8].
Proof. vm_compute. reflexivity. Qed.

(** ** Binary64 rounding never exceeds a bound it can represent *)

Lemma digits2_pos_size (p : positive) : digits2_pos p = Pos.size p.
Proof. induction p as [p IH|p IH|]; simpl; congruence. Qed.

Lemma digits2_pos_log2 (p : positive) :
  Z.pos (digits2_pos p) = Z.log2 (Z.pos p) + 1.
Proof.
  rewrite digits2_pos_size. destruct p as [p|p|]; simpl; try lia.
Qed.

Lemma Zdigits2_le (m k : Z) : 0 < m -> 0 <= k -> m < 2 ^ k -> Zdigits2 m <= k.
Proof.
  intros Hm Hk Hlt. destruct m as [|p|p]; try lia.
  unfold Zdigits2. rewrite digits2_pos_log2.
  assert (Z.log2 (Z.pos p) < k) by (apply Z.log2_lt_pow2; lia). lia.
Qed.

(** One shift to the right *)
Lemma shr_1_spec (mrs : shr_record) :
  0 <= shr_m mrs ->
  exists b : bool,
    shr_m mrs = 2 * shr_m (shr_1 mrs) + (if b then 1 else 0)
    /\ 0 <= shr_m (shr_1 mrs)
    /\ shr_r (shr_1 mrs) = b
    /\ shr_s (shr_1 mrs) = orb (shr_r mrs) (shr_s mrs).
Proof.
  destruct mrs as [m r s]. simpl. intros Hm.
  destruct m as [|[p|p|]|p]; try lia.
  - exists false. simpl. repeat split; lia.
  - exists true. simpl. repeat split; lia.
  - exists false. simpl. repeat split; lia.
  - exists true. simpl. repeat split; lia.
Qed.

Lemma shr_1_inv (M k : Z) (mrs : shr_record) :
  0 <= k -> shr_inv M k mrs -> shr_inv M (k + 1) (shr_1 mrs).
Proof.
  intros Hk (Hm & Hle & Hlt).
  destruct (shr_1_spec mrs Hm) as (b & Heq & Hm' & Hr & Hs).
  assert (Hp : 0 < 2 ^ k) by (apply Z.pow_pos_nonneg; lia).
  assert (Hpow : 2 ^ (k + 1) = 2 * 2 ^ k) by (rewrite Z.pow_add_r; lia).
  unfold shr_inv. rewrite Hr, Hs, Hpow. split; [exact Hm'|]. split.
  - destruct b; nia.
  - intros Hor. destruct b.
    + nia.
    + simpl in Hor. specialize (Hlt Hor). nia.
Qed.

Lemma iter_pos_inv {A} (f : A -> A) (P : Z -> A -> Prop) :
  (forall k x, 0 <= k -> P k x -> P (k + 1) (f x)) ->
  forall p k x,
    0 <= k -> P k x -> P (k + Z.pos p) (SpecFloat.iter_pos f p x).
Proof.
  intros Hstep. induction p as [p IH|p IH|]; intros k x Hk HP; simpl.
  - replace (k + Z.pos p~1) with (k + 1 + Z.pos p + Z.pos p) by lia.
    apply IH; [lia|]. apply IH; [lia|]. apply Hstep; assumption.
  - replace (k + Z.pos p~0) with (k + Z.pos p + Z.pos p) by lia.
    apply IH; [lia|]. apply IH; assumption.
  - apply Hstep; assumption.
Qed.

Lemma shr_exact_inv (m e n : Z) :
  0 <= m ->
  let '(mrs, e') := shr (shr_record_of_loc m loc_Exact) e n in
  e' = e + Z.max n 0 /\ shr_inv m (Z.max n 0) mrs.
Proof.
  intros Hm.
  assert (Hstart : shr_inv m 0 (shr_record_of_loc m loc_Exact)).
  { unfold shr_inv. simpl. repeat split; try lia; try discriminate. }
  unfold shr. destruct n as [|p|p].
  - replace (Z.max 0 0) with 0 by lia. split; [lia|exact Hstart].
  - split; [lia|]. replace (Z.max (Z.pos p) 0) with (0 + Z.pos p) by lia.
    apply (iter_pos_inv shr_1 (shr_inv m)).
    + intros k x Hk. apply shr_1_inv. exact Hk.
    + lia.
    + exact Hstart.
  - replace (Z.max (Z.neg p) 0) with 0 by lia. split; [lia|exact Hstart].
Qed.

Lemma round_nearest_even_le (mrs : shr_record) :
  let m' := round_nearest_even (shr_m mrs) (loc_of_shr_record mrs) in
  (m' = shr_m mrs
   \/ (m' = shr_m mrs + 1 /\ orb (shr_r mrs) (shr_s mrs) = true)).
Proof.
  destruct mrs as [m [] []]; simpl; auto.
  destruct (Z.even m); auto.
Qed.

Lemma fexp_le_0 (m e : Z) (n : Z) :
  0 <= m -> e <= 0 -> 0 < n < 2 ^ 53 -> m <= n * 2 ^ (- e) ->
  fexp 53 1024 (Zdigits2 m + e) <= 0.
Proof.
  intros Hm He Hn Hle. unfold fexp, emin.
  assert (Hd : Zdigits2 m <= 53 - e).
  { destruct (Z.eq_dec m 0) as [->|Hne].
    { change (Zdigits2 0) with 0. lia. }
    apply Zdigits2_le; try lia.
    replace (53 - e) with (53 + - e) by lia.
    rewrite Z.pow_add_r by lia.
    assert (0 < 2 ^ (- e)) by (apply Z.pow_pos_nonneg; lia).
    apply Z.le_lt_trans with (n * 2 ^ (- e)); [lia|].
    apply Z.mul_lt_mono_pos_r; lia. }
  lia.
Qed.

Lemma binary_round_aux_le (sx : bool) (m e n : Z) :
  0 < m -> e <= 0 -> 0 < n < 2 ^ 53 -> m <= n * 2 ^ (- e) ->
  match binary_round_aux 53 1024 sx m e loc_Exact with
  | S754_zero s => s = sx
  | S754_finite s m3 e3 => s = sx /\ e3 <= 0 /\ Z.pos m3 <= n * 2 ^ (- e3)
  | _ => False
  end.
Proof.
  intros Hm He Hn Hle. unfold binary_round_aux, shr_fexp.
  pose proof (fexp_le_0 m e n ltac:(lia) He Hn Hle) as Hf1.
  set (s1 := fexp 53 1024 (Zdigits2 m + e) - e) in *.
  pose proof (shr_exact_inv m e s1 ltac:(lia)) as H1.
  destruct (shr (shr_record_of_loc m loc_Exact) e s1) as [mrs1 e1].
  destruct H1 as (He1 & Hm1 & Hle1 & Hlt1).
  set (k1 := Z.max s1 0) in *.
  assert (He1' : e1 <= 0) by (subst s1 k1; lia).
  assert (Hk1 : 0 <= k1) by (subst k1; lia).
  assert (Hp1 : 0 < 2 ^ k1) by (apply Z.pow_pos_nonneg; lia).
  assert (Hsplit : n * 2 ^ (- e) = n * 2 ^ (- e1) * 2 ^ k1).
  { replace (- e) with (- e1 + k1) by lia.
    rewrite Z.pow_add_r by lia. ring. }
  set (N1 := n * 2 ^ (- e1)) in *.
  set (m2 := round_nearest_even (shr_m mrs1) (loc_of_shr_record mrs1)).
  assert (Hm2 : 0 <= m2 <= N1).
  { pose proof (round_nearest_even_le mrs1) as Hr. cbv zeta in Hr.
    fold m2 in Hr. destruct Hr as [->|[-> Hor]].
    - split; [lia|]. nia.
    - specialize (Hlt1 Hor). split; [lia|]. nia. }
  assert (Hf2 : fexp 53 1024 (Zdigits2 m2 + e1) <= 0).
  { apply (fexp_le_0 m2 e1 n); try lia. }
  set (s2 := fexp 53 1024 (Zdigits2 m2 + e1) - e1) in *.
  pose proof (shr_exact_inv m2 e1 s2 ltac:(lia)) as H2.
  destruct (shr (shr_record_of_loc m2 loc_Exact) e1 s2) as [mrs2 e2].
  destruct H2 as (He2 & Hm3 & Hle3 & _).
  set (k2 := Z.max s2 0) in *.
  assert (He2' : e2 <= 0) by (subst s2 k2; lia).
  assert (Hk2 : 0 <= k2) by (subst k2; lia).
  assert (Hp2 : 0 < 2 ^ k2) by (apply Z.pow_pos_nonneg; lia).
  assert (Hsplit2 : N1 = n * 2 ^ (- e2) * 2 ^ k2).
  { subst N1. replace (- e1) with (- e2 + k2) by lia.
    rewrite Z.pow_add_r by lia. ring. }
  destruct (shr_m mrs2) as [|m3|m3] eqn:E3; try lia.
  - reflexivity.
  - replace (e2 <=? 1024 - 53) with true by (symmetry; apply Z.leb_le; lia).
    split; [reflexivity|]. split; [exact He2'|]. nia.
Qed.

Lemma Pos_iter_xO (m d : positive) :
  Z.pos (Pos.iter xO m d) = Z.pos m * 2 ^ Z.pos d.
Proof.
  induction d as [|d IH] using Pos.peano_ind.
  - simpl. lia.
  - rewrite Pos.iter_succ, Pos2Z.inj_xO, IH, Pos2Z.inj_succ, Z.pow_succ_r by lia.
    ring.
Qed.

Lemma shl_align_spec (mx : positive) (ex ex' : Z) :
  let '(mz, ez) := shl_align mx ex ex' in
  ez <= ex /\ Z.pos mz = Z.pos mx * 2 ^ (ex - ez).
Proof.
  unfold shl_align. destruct (ex' - ex) as [|d|d] eqn:E.
  - split; [lia|]. rewrite Z.sub_diag. simpl. lia.
  - split; [lia|]. rewrite Z.sub_diag. simpl. lia.
  - split; [lia|]. rewrite Pos_iter_xO. f_equal. f_equal. lia.
Qed.

Lemma float_of_int_le (n : Z) :
  0 < n < 2 ^ 53 ->
  match binary_normalize 53 1024 n 0 false with
  | S754_zero s => s = false
  | S754_finite s mx ex => s = false /\ ex <= 0 /\ Z.pos mx <= n * 2 ^ (- ex)
  | _ => False
  end.
Proof.
  intros Hn. destruct n as [|p|p]; try lia.
  unfold binary_normalize, binary_round.
  pose proof (shl_align_spec p 0 (fexp 53 1024 (Z.pos (digits2_pos p) + 0)))
    as Hal.
  destruct (shl_align p 0 (fexp 53 1024 (Z.pos (digits2_pos p) + 0)))
    as [mz ez].
  destruct Hal as (Hez & Hmz).
  apply binary_round_aux_le; try lia.
  rewrite Hmz. replace (0 - ez) with (- ez) by lia. lia.
Qed.

(** ** Binary64 rounding of what a float can hold *)

Lemma Zdigits2_shift (m : positive) (k : Z) :
  0 <= k -> Zdigits2 (Z.pos m * 2 ^ k) = Zdigits2 (Z.pos m) + k.
Proof.
  intros Hk.
  assert (Hp : 0 < Z.pos m * 2 ^ k)
    by (apply Z.mul_pos_pos; [lia | apply Z.pow_pos_nonneg; lia]).
  destruct (Z.pos m * 2 ^ k) as [|q|q] eqn:E; try lia.
  unfold Zdigits2. rewrite !digits2_pos_log2, <- E.
  rewrite Z.log2_mul_pow2 by lia. lia.
Qed.

Lemma shr_1_exact (M j k : Z) (x : shr_record) :
  0 <= j -> 0 < M ->
  (j <= k -> shr_m x = M * 2 ^ (k - j)
             /\ shr_r x = false /\ shr_s x = false) ->
  j + 1 <= k -> shr_m (shr_1 x) = M * 2 ^ (k - (j + 1))
                /\ shr_r (shr_1 x) = false /\ shr_s (shr_1 x) = false.
Proof.
  intros Hj HM HP Hle.
  destruct (HP ltac:(lia)) as (Hm & Hr & Hs).
  assert (Hpow : 2 ^ (k - j) = 2 * 2 ^ (k - (j + 1)))
    by (rewrite <- Z.pow_succ_r by lia; f_equal; lia).
  assert (Hq : 0 < 2 ^ (k - (j + 1))) by (apply Z.pow_pos_nonneg; lia).
  set (q := 2 ^ (k - (j + 1))) in *.
  rewrite Hpow in Hm.
  assert (Hx : 0 <= shr_m x) by (rewrite Hm; nia).
  destruct (shr_1_spec x Hx) as (b & Heq & Hm' & Hr' & Hs').
  rewrite Hr', Hs', Hr, Hs.
  destruct b; [exfalso; nia|].
  repeat split; try reflexivity. nia.
Qed.

Lemma shr_exact_shift (m : positive) (e k : Z) :
  0 <= k ->
  shr (shr_record_of_loc (Z.pos m * 2 ^ k) loc_Exact) (e - k) k
  = ({| shr_m := Z.pos m; shr_r := false; shr_s := false |}, e).
Proof.
  intros Hk. unfold shr. destruct k as [|p|p]; try lia.
  - cbn [shr_record_of_loc]. f_equal; [f_equal|]; lia.
  - f_equal; [|lia].
    pose proof (iter_pos_inv shr_1
                  (fun j x => j <= Z.pos p ->
                              shr_m x = Z.pos m * 2 ^ (Z.pos p - j)
                              /\ shr_r x = false /\ shr_s x = false)) as Hiter.
    cbv beta in Hiter.
    assert (Hstep : forall j x, 0 <= j ->
              (j <= Z.pos p ->
               shr_m x = Z.pos m * 2 ^ (Z.pos p - j)
               /\ shr_r x = false /\ shr_s x = false) ->
              j + 1 <= Z.pos p ->
              shr_m (shr_1 x) = Z.pos m * 2 ^ (Z.pos p - (j + 1))
              /\ shr_r (shr_1 x) = false /\ shr_s (shr_1 x) = false).
    { intros j x Hj HP. apply shr_1_exact; [exact Hj|lia|exact HP]. }
    specialize (Hiter Hstep p 0
                  (shr_record_of_loc (Z.pos m * 2 ^ Z.pos p) loc_Exact)
                  ltac:(lia)).
    destruct Hiter as (Hm & Hr & Hs).
    + intros _. cbn [shr_record_of_loc shr_m shr_r shr_s].
      rewrite Z.sub_0_r. repeat split; reflexivity.
    + lia.
    + replace (Z.pos p - (0 + Z.pos p)) with 0 in Hm by lia.
      rewrite Z.pow_0_r, Z.mul_1_r in Hm.
      destruct (SpecFloat.iter_pos shr_1 p _) as [m' r' s'].
      cbn [shr_m shr_r shr_s] in Hm, Hr, Hs. congruence.
Qed.

Lemma binary_round_aux_exact (sx : bool) (m : positive) (k e : Z) :
  0 <= k ->
  fexp 53 1024 (Zdigits2 (Z.pos m) + e) = e ->
  e <= 1024 - 53 ->
  binary_round_aux 53 1024 sx (Z.pos m * 2 ^ k) (e - k) loc_Exact
  = S754_finite sx m e.
Proof.
  intros Hk Hf He. unfold binary_round_aux, shr_fexp.
  rewrite Zdigits2_shift by exact Hk.
  replace (Zdigits2 (Z.pos m) + k + (e - k)) with (Zdigits2 (Z.pos m) + e)
    by lia.
  rewrite Hf. replace (e - (e - k)) with k by lia.
  rewrite shr_exact_shift by exact Hk.
  cbn [shr_m loc_of_shr_record round_nearest_even].
  rewrite Hf, Z.sub_diag. cbn [shr shr_record_of_loc shr_m].
  replace (e <=? 1024 - 53) with true by (symmetry; apply Z.leb_le; lia).
  reflexivity.
Qed.

(** The canonical form of a positive integer below [2^53]. *)
Lemma shl_align_fexp_exact (p : positive) :
  Z.pos p < 2 ^ 53 ->
  let '(mz, ez) :=
    shl_align p 0 (fexp 53 1024 (Z.pos (digits2_pos p) + 0)) in
  -52 <= ez <= 0
  /\ Z.pos mz = Z.pos p * 2 ^ (- ez)
  /\ fexp 53 1024 (Zdigits2 (Z.pos mz) + ez) = ez.
Proof.
  intros Hp.
  assert (Hd : 1 <= Zdigits2 (Z.pos p) <= 53).
  { split.
    - unfold Zdigits2. lia.
    - apply Zdigits2_le; lia. }
  change (Z.pos (digits2_pos p)) with (Zdigits2 (Z.pos p)).
  assert (Hf : fexp 53 1024 (Zdigits2 (Z.pos p) + 0)
               = Zdigits2 (Z.pos p) - 53)
    by (unfold fexp, emin; lia).
  rewrite Hf. unfold shl_align.
  destruct (Zdigits2 (Z.pos p) - 53 - 0) as [|d|d] eqn:E; try lia.
  split; [lia|].
  assert (Hmz : Z.pos (Pos.iter xO p d) = Z.pos p * 2 ^ Z.pos d)
    by apply Pos_iter_xO.
  split.
  - rewrite Hmz. f_equal. f_equal. lia.
  - rewrite Hmz, Zdigits2_shift by lia. unfold fexp, emin. lia.
Qed.

(** [float(n)] is exact for [0 <= n < 2^53]. *)
Lemma float_of_int_exact (n : Z) :
  0 <= n < 2 ^ 53 ->
  exists x,
    float_of_int n = Return x
    /\ (float_value x == inject_Z n)%Q
    /\ match x with
       | S754_zero s => s = false /\ n = 0
       | S754_finite s m e =>
           s = false /\ -52 <= e <= 0 /\ Z.pos m = n * 2 ^ (- e)
           /\ fexp 53 1024 (Zdigits2 (Z.pos m) + e) = e
       | _ => False
       end.
Proof.
  intros Hn. unfold float_of_int. destruct n as [|p|p]; try lia.
  - exists (S754_zero false). split; [reflexivity|].
    split; [reflexivity|]. split; reflexivity.
  - unfold binary_normalize, binary_round.
    pose proof (shl_align_fexp_exact p ltac:(lia)) as Hal.
    destruct (shl_align p 0 (fexp 53 1024 (Z.pos (digits2_pos p) + 0)))
      as [mz ez].
    destruct Hal as (Hez & Hmz & Hf).
    pose proof (binary_round_aux_exact false mz 0 ez ltac:(lia) Hf
                  ltac:(lia)) as Hround.
    rewrite Z.pow_0_r, Z.mul_1_r, Z.sub_0_r in Hround. rewrite Hround.
    exists (S754_finite false mz ez). split; [reflexivity|]. split.
    + unfold float_value, cond_Zopp. destruct ez as [|q|q]; try lia.
      * change (- 0) with 0 in Hmz. rewrite Z.pow_0_r, Z.mul_1_r in *.
        rewrite Hmz. reflexivity.
      * unfold Qeq. cbn [Qnum Qden inject_Z].
        rewrite Pos2Z.inj_pow, Hmz. change (- Z.neg q) with (Z.pos q). ring.
    + repeat split; try lia; assumption.
Qed.

(** [int(float(n) * 1.0)] and [int(float(n) * 0.0)] for [0 <= n < 2^53]. *)
Lemma n_byzantine_one (n : Z) :
  0 <= n < 2 ^ 53 -> n_byzantine n (float_literal 1 1) = Return n.
Proof.
  intros Hn. unfold n_byzantine.
  destruct (float_of_int_exact n Hn) as (x & -> & _ & Hx).
  change (float_literal 1 1) with (S754_finite false 4503599627370496 (-52)).
  destruct x as [s|s| |s m e]; try contradiction.
  - destruct Hx as (-> & ->). reflexivity.
  - destruct Hx as (-> & He & Hm & Hf).
    unfold float_mul, SFmul. cbn [xorb].
    replace (Z.pos (m * 4503599627370496)) with (Z.pos m * 2 ^ 52) by lia.
    replace (e + -52) with (e - 52) by lia.
    rewrite binary_round_aux_exact by (try exact Hf; lia).
    unfold py_int, cond_Zopp. f_equal.
    destruct e as [|q|q]; try lia.
    change (- Z.neg q) with (Z.pos q) in Hm. rewrite Hm.
    apply Z.div_mul. apply Z.pow_nonzero; lia.
Qed.

Lemma n_byzantine_zero (n : Z) :
  0 <= n < 2 ^ 53 -> n_byzantine n (float_literal 0 1) = Return 0.
Proof.
  intros Hn. unfold n_byzantine.
  destruct (float_of_int_exact n Hn) as (x & -> & _ & Hx).
  change (float_literal 0 1) with (S754_zero false).
  destruct x as [s|s| |s m e]; try contradiction; reflexivity.
Qed.

(** C10. [PBFTProtocol] over an empty population approves (0 >= 0.0), and
    draws nothing; [CEPBFTProtocol] over an empty trusted set returns
    [False]. *)
Theorem empty_population_baseline_true_filtered_false :
  forall (transaction : transaction_t) (w : world),
    PBFTProtocol.consensus (PBFTProtocol.init []) transaction w = (true, w)
    /\ CEPBFTProtocol.consensus (CEPBFTProtocol.init []) transaction w
       = (false, w).
Proof. intros transaction w. split; reflexivity. Qed.


(** ** The monad, unfolded *)

Lemma bind_run {A B} (m : M A) (k : A -> M B) (w : world) :
  bind m k w = k (fst (m w)) (snd (m w)).
Proof. unfold bind. destruct (m w); reflexivity. Qed.

Lemma mapM_cons {A B} (f : A -> M B) (x : A) (xs : list A) (w : world) :
  mapM f (x :: xs) w
  = (fst (f x w) :: fst (mapM f xs (snd (f x w))),
     snd (mapM f xs (snd (f x w)))).
Proof.
  simpl. rewrite bind_run, bind_run. reflexivity.
Qed.

Lemma mapM_length {A B} (f : A -> M B) (xs : list A) (w : world) :
  length (fst (mapM f xs w)) = length xs.
Proof.
  revert w. induction xs as [|x xs IH]; intros w; [reflexivity|].
  rewrite mapM_cons. simpl. f_equal. apply IH.
Qed.

(** ** The shuffle permutes *)

Lemma insert_head_Permutation {A} (l : list A) (j : nat) (x b : A) :
  l !! j = Some b -> b :: <[j:=x]> l ≡ₚ x :: l.
Proof.
  revert j. induction l as [|y l IH]; intros j Hj; [discriminate|].
  destruct j as [|j]; simpl in *.
  - injection Hj as ->. apply perm_swap.
  - rewrite (perm_swap y b), (IH j Hj). apply perm_swap.
Qed.

Lemma swap_Permutation {A} (x : list A) (i j : nat) : swap x i j ≡ₚ x.
Proof.
  unfold swap.
  destruct (x !! j) as [xj|] eqn:Hj; [|reflexivity].
  destruct (x !! i) as [xi|] eqn:Hi; [|reflexivity].
  revert i j Hi Hj. induction x as [|y x IH]; intros i j Hi Hj; [discriminate|].
  destruct i as [|i], j as [|j]; simpl in *.
  - injection Hi as ->. injection Hj as ->. reflexivity.
  - injection Hi as ->. apply insert_head_Permutation, Hj.
  - injection Hj as ->. apply insert_head_Permutation, Hi.
  - constructor. apply IH; assumption.
Qed.

Lemma shuffle_from_Permutation {A} (i : nat) (x : list A) (w : world) :
  fst (shuffle_from i x w) ≡ₚ x.
Proof.
  revert x w. induction i as [|i IH]; intros x w; [reflexivity|].
  cbn [shuffle_from]. rewrite bind_run, IH. apply swap_Permutation.
Qed.

Lemma random_shuffle_Permutation {A} (x : list A) (w : world) :
  fst (random_shuffle x w) ≡ₚ x.
Proof. apply shuffle_from_Permutation. Qed.

Lemma build_population_Permutation (n k : Z) (w : world) :
  fst (build_population n k w) ≡ₚ fresh_nodes n k.
Proof. apply random_shuffle_Permutation. Qed.

(** ** Counting the two kinds of node *)

Lemma counts_length (nodes : list Node) :
  (faulty_count nodes + honest_count nodes = length nodes)%nat.
Proof.
  induction nodes as [|[b] nodes IH]; [reflexivity|].
  destruct b; simpl; lia.
Qed.

Lemma faulty_count_app (l1 l2 : list Node) :
  faulty_count (l1 ++ l2) = (faulty_count l1 + faulty_count l2)%nat.
Proof.
  induction l1 as [|[b] l1 IH]; [reflexivity|].
  destruct b; simpl; rewrite IH; reflexivity.
Qed.

Lemma honest_count_app (l1 l2 : list Node) :
  honest_count (l1 ++ l2) = (honest_count l1 + honest_count l2)%nat.
Proof.
  induction l1 as [|[b] l1 IH]; [reflexivity|].
  destruct b; simpl; rewrite IH; reflexivity.
Qed.

Lemma faulty_count_replicate (k : nat) (b : bool) :
  faulty_count (replicate k (mkNode b)) = if b then k else O.
Proof. induction k as [|k IH]; destruct b; simpl in *; congruence. Qed.

Lemma honest_count_replicate (k : nat) (b : bool) :
  honest_count (replicate k (mkNode b)) = if b then O else k.
Proof. induction k as [|k IH]; destruct b; simpl in *; congruence. Qed.

Lemma faulty_count_Permutation (l1 l2 : list Node) :
  l1 ≡ₚ l2 -> faulty_count l1 = faulty_count l2.
Proof.
  induction 1 as [|[b] l1 l2 _ IH|[b1] [b2] l|l1 l2 l3 _ IH1 _ IH2].
  - reflexivity.
  - simpl. rewrite IH. reflexivity.
  - destruct b1, b2; reflexivity.
  - congruence.
Qed.

Lemma honest_count_Permutation (l1 l2 : list Node) :
  l1 ≡ₚ l2 -> honest_count l1 = honest_count l2.
Proof.
  intros H. pose proof (counts_length l1). pose proof (counts_length l2).
  pose proof (faulty_count_Permutation _ _ H).
  pose proof (Permutation_length H). lia.
Qed.

Lemma fresh_nodes_faulty (n k : Z) :
  faulty_count (fresh_nodes n k) = range_len k.
Proof.
  unfold fresh_nodes.
  rewrite faulty_count_app, !faulty_count_replicate. lia.
Qed.

Lemma fresh_nodes_honest (n k : Z) :
  honest_count (fresh_nodes n k) = range_len (n - k).
Proof.
  unfold fresh_nodes.
  rewrite honest_count_app, !honest_count_replicate. lia.
Qed.

(** ** [classify_nodes] *)

Lemma classify_nodes_length (nodes : list Node) :
  length (CEPBFTProtocol.classify_nodes nodes) = honest_count nodes.
Proof.
  unfold CEPBFTProtocol.classify_nodes.
  induction nodes as [|[b] nodes IH]; [reflexivity|].
  destruct b.
  - rewrite filter_cons_False by (simpl; discriminate). exact IH.
  - rewrite filter_cons_True by reflexivity. simpl. f_equal. exact IH.
Qed.

Lemma classify_nodes_elem (nodes : list Node) (node : Node) :
  node ∈ CEPBFTProtocol.classify_nodes nodes
  <-> node ∈ nodes /\ is_byzantine node = false.
Proof.
  unfold CEPBFTProtocol.classify_nodes. rewrite list_elem_of_filter.
  rewrite negb_true_iff. tauto.
Qed.

Lemma classify_nodes_honest (nodes : list Node) :
  Forall (fun node => is_byzantine node = false)
         (CEPBFTProtocol.classify_nodes nodes).
Proof.
  apply Forall_forall. intros node Hin.
  apply classify_nodes_elem in Hin. tauto.
Qed.

(** ** Votes *)

Lemma vote_honest (node : Node) (transaction : transaction_t) (w : world) :
  is_byzantine node = false -> fst (NodeM.vote node transaction w) = true.
Proof.
  intros Hb. unfold NodeM.vote. rewrite !bind_run, Hb. reflexivity.
Qed.

Lemma vote_draws (node : Node) (transaction : transaction_t) (w : world) :
  (drawn w < drawn (snd (NodeM.vote node transaction w)))%nat.
Proof.
  unfold NodeM.vote, NodeM.simulate_latency.
  destruct (is_byzantine node); rewrite !bind_run; simpl; lia.
Qed.

Lemma py_sum_bounds (votes : list bool) :
  0 <= py_sum votes <= Z.of_nat (length votes).
Proof.
  induction votes as [|[] votes IH]; cbn [py_sum length]; lia.
Qed.

Lemma collect_votes_length nodes transaction w :
  length (fst (collect_votes nodes transaction w)) = length nodes.
Proof. apply mapM_length. Qed.

Lemma collect_votes_honest_lower nodes transaction w :
  Z.of_nat (honest_count nodes)
  <= py_sum (fst (collect_votes nodes transaction w)).
Proof.
  unfold collect_votes. revert w.
  induction nodes as [|[b] nodes IH]; intros w; [reflexivity|].
  rewrite mapM_cons. cbn [fst py_sum honest_count is_byzantine].
  specialize (IH (snd (NodeM.vote (mkNode b) transaction w))).
  destruct b.
  - destruct (fst (NodeM.vote _ _ _)); lia.
  - rewrite vote_honest by reflexivity. lia.
Qed.

Lemma collect_votes_all_honest nodes transaction w :
  Forall (fun node => is_byzantine node = false) nodes ->
  py_sum (fst (collect_votes nodes transaction w)) = Z.of_nat (length nodes).
Proof.
  intros Hall.
  pose proof (collect_votes_honest_lower nodes transaction w) as Hlo.
  pose proof (py_sum_bounds (fst (collect_votes nodes transaction w))) as Hhi.
  rewrite collect_votes_length in Hhi.
  assert (honest_count nodes = length nodes) as Heq.
  { clear Hlo Hhi. induction Hall as [|[b] nodes Hb _ IH]; [reflexivity|].
    simpl in Hb. subst b. simpl. f_equal. exact IH. }
  lia.
Qed.

(** ** The quorum test, over the integers *)

Lemma quorum_spec (approved_votes : Z) (size : nat) :
  quorum approved_votes size = true
  <-> 2 * Z.of_nat size <= 3 * approved_votes.
Proof.
  unfold quorum. rewrite Qle_bool_iff. unfold Qle. simpl. lia.
Qed.

Lemma quorum_real (approved_votes : Z) (size : nat) :
  quorum approved_votes size = true
  <-> ((2 # 3) * inject_Z (Z.of_nat size) <= inject_Z approved_votes)%Q.
Proof. unfold quorum. apply Qle_bool_iff. Qed.

Lemma PBFT_consensus_run (self : PBFTProtocol.t) transaction w :
  PBFTProtocol.consensus self transaction w
  = (quorum (py_sum (fst (collect_votes (PBFTProtocol.nodes self)
                                        transaction w)))
            (length (PBFTProtocol.nodes self)),
     snd (collect_votes (PBFTProtocol.nodes self) transaction w)).
Proof.
  unfold PBFTProtocol.consensus, collect_votes. rewrite bind_run.
  destruct (quorum _ _); reflexivity.
Qed.

Lemma CEPBFT_consensus_run (self : CEPBFTProtocol.t) transaction w :
  CEPBFTProtocol.trusted_nodes self <> [] ->
  CEPBFTProtocol.consensus self transaction w
  = (quorum (py_sum (fst (collect_votes (CEPBFTProtocol.trusted_nodes self)
                                        transaction w)))
            (length (CEPBFTProtocol.trusted_nodes self)),
     snd (collect_votes (CEPBFTProtocol.trusted_nodes self) transaction w)).
Proof.
  intros Hne. unfold CEPBFTProtocol.consensus, collect_votes.
  destruct (CEPBFTProtocol.trusted_nodes self) as [|node rest] eqn:E;
    [congruence|].
  cbn [length Nat.eqb]. rewrite bind_run.
  destruct (quorum _ _); reflexivity.
Qed.

(** ** [int(n_nodes * byzantine_ratio)] *)

(** On a float that is not negative, [int()] is the floor of its value. *)
Lemma py_int_floor (m : positive) (e : Z) :
  py_int (S754_finite false m e)
  = Return (Qfloor (float_value (S754_finite false m e))).
Proof.
  unfold py_int, float_value, cond_Zopp. destruct e as [|p|p].
  - rewrite Qfloor_Z. reflexivity.
  - rewrite Qfloor_Z. reflexivity.
  - unfold Qfloor. cbn [Qnum Qden]. rewrite Pos2Z.inj_pow. reflexivity.
Qed.

Lemma py_int_bounds (m3 : positive) (e3 n : Z) :
  e3 <= 0 -> Z.pos m3 <= n * 2 ^ (- e3) ->
  exists k, py_int (S754_finite false m3 e3) = Return k /\ 0 <= k <= n.
Proof.
  intros He Hle. unfold py_int, cond_Zopp.
  destruct e3 as [|p|p]; try lia.
  - eexists. split; [reflexivity|]. simpl in Hle. lia.
  - eexists. split; [reflexivity|].
    assert (Hp : 0 < 2 ^ Z.pos p) by (apply Z.pow_pos_nonneg; lia).
    change (- Z.neg p) with (Z.pos p) in Hle. split.
    + apply Z.div_pos; lia.
    + apply Z.div_le_upper_bound; [exact Hp|]. lia.
Qed.

(** The only exceptions of line 63. *)
Lemma n_byzantine_raises (n : Z) (r : spec_float) (e : exn) :
  n_byzantine n r = Raise e -> e = ValueError \/ e = OverflowError.
Proof.
  unfold n_byzantine, float_of_int, py_int.
  destruct (binary_normalize 53 1024 n 0 false) as [s|s| |s m ex];
    try (intros [= <-]; auto; fail);
    match goal with
    | |- context [float_mul ?x r] => destruct (float_mul x r)
    end; intros [= <-]; auto.
Qed.

(** For a node count a float holds and a ratio in the unit interval, line
    63 returns the floor of the rounded product, between [0] and [n]. *)
Lemma n_byzantine_unit (n : Z) (r : spec_float) :
  0 <= n < 2 ^ 53 -> in_unit_interval r = true ->
  exists x k,
    float_of_int n = Return x
    /\ n_byzantine n r = Return k
    /\ k = Qfloor (float_value (float_mul x r))
    /\ 0 <= k <= n.
Proof.
  intros Hn Hr. unfold n_byzantine, float_of_int.
  destruct (Z.eq_dec n 0) as [->|Hne].
  - exists (S754_zero false), 0.
    destruct r as [s|s| |[] my ey]; try discriminate;
      repeat split; reflexivity || lia.
  - pose proof (float_of_int_le n ltac:(lia)) as Hx.
    destruct (binary_normalize 53 1024 n 0 false) as [sx|sx| |sx mx ex];
      try contradiction.
    + exists (S754_zero sx), 0.
      destruct r as [s|s| |[] my ey]; try discriminate;
        repeat split; reflexivity || lia.
    + destruct Hx as (-> & Hex & Hmx).
      exists (S754_finite false mx ex).
      destruct r as [s|s| |[] my ey]; try discriminate.
      * exists 0. repeat split; reflexivity || lia.
      * unfold in_unit_interval in Hr. apply andb_true_iff in Hr.
        destruct Hr as (Hey & Hmy).
        apply Z.leb_le in Hey. apply Z.leb_le in Hmy.
        unfold float_mul, SFmul. cbn [xorb].
        assert (Hprod : Z.pos (mx * my) <= n * 2 ^ (- (ex + ey))).
        { replace (- (ex + ey)) with (- ex + - ey) by lia.
          rewrite Z.pow_add_r, Pos2Z.inj_mul by lia.
          assert (0 < 2 ^ (- ex)) by (apply Z.pow_pos_nonneg; lia).
          assert (0 < 2 ^ (- ey)) by (apply Z.pow_pos_nonneg; lia).
          nia. }
        pose proof (binary_round_aux_le false (Z.pos (mx * my)) (ex + ey) n
                      ltac:(lia) ltac:(lia) ltac:(lia) Hprod) as Hround.
        destruct (binary_round_aux 53 1024 false (Z.pos (mx * my)) (ex + ey)
                    loc_Exact) as [s3|s3| |s3 m3 e3]; try contradiction.
        -- exists 0. repeat split; reflexivity || lia.
        -- destruct Hround as (-> & He3 & Hm3).
           destruct (py_int_bounds m3 e3 n He3 Hm3) as (k & Hk & Hb).
           exists k. split; [reflexivity|]. split; [exact Hk|].
           split; [|exact Hb].
           rewrite py_int_floor in Hk. congruence.
Qed.

(** Past [2^53] the conversion of [n_nodes] rounds, and can round up: the
    count of line 63 is then above [n_nodes]. *)
Lemma n_byzantine_above_n :
  in_unit_interval (float_literal 1 1) = true
  /\ n_byzantine (2 ^ 53 + 3) (float_literal 1 1) = Return (2 ^ 53 + 4).
Proof. split; vm_compute; reflexivity. Qed.

Lemma build_population_faulty (n k : Z) (w : world) :
  faulty_count (fst (build_population n k w)) = range_len k.
Proof.
  rewrite (faulty_count_Permutation _ _ (build_population_Permutation n k w)).
  apply fresh_nodes_faulty.
Qed.

Lemma build_population_honest (n k : Z) (w : world) :
  honest_count (fst (build_population n k w)) = range_len (n - k).
Proof.
  rewrite (honest_count_Permutation _ _ (build_population_Permutation n k w)).
  apply fresh_nodes_honest.
Qed.

(** [simulate] stops at line 63 when it raises, and otherwise constructs its
    protocol over the population it has just built, and over no other. *)
Lemma simulate_population (P : protocol_class) (n : Z) (r : spec_float)
  (t : Z) (w : world) :
  simulate P n r t w
  = match n_byzantine n r with
    | Raise e => (Raise e, w)
    | Return k =>
        drive P (fst (build_population n k w)) t
              (snd (build_population n k w))
    end.
Proof.
  unfold simulate. destruct (n_byzantine n r) as [k|e]; [|reflexivity].
  unfold bind. destruct (build_population n k w); reflexivity.
Qed.

Lemma rounds_all_true (P : protocol_class) (protocol : instance P) :
  (forall w, fst (consensus P protocol tt w) = true) ->
  forall k c w, fst (rounds P protocol k c w) = c + Z.of_nat k.
Proof.
  intros Hall. induction k as [|k IH]; intros c w.
  - simpl. lia.
  - cbn [rounds]. rewrite bind_run, Hall, IH. lia.
Qed.

(** * The claims *)

(** C6 (as stated, refuted).  The number of faulty participants is not the
    floor of the exact product.  A hundred nodes at ratio 0.29 give 28
    faulty ones, where [floor (100 * 29/100)] is 29; twenty nodes at 0.3
    give 6, where the float 0.3 is below 3/10 and twenty times its value
    has floor 5.  And not every [n >= 0] gets a population: at
    [n = 2^1024] line 63 raises [OverflowError]. *)
Lemma population_counts_inexact :
  Qfloor (inject_Z 100 * (29 # 100)) = 29
  /\ n_byzantine 100 (float_literal 29 100) = Return 28
  /\ faulty_count (fst (build_population 100 28 w_still)) = 28%nat
  /\ honest_count (fst (build_population 100 28 w_still)) = 72%nat
  /\ in_unit_interval (float_literal 3 10) = true
  /\ Qfloor (inject_Z 20 * float_value (float_literal 3 10)) = 5
  /\ n_byzantine 20 (float_literal 3 10) = Return 6
  /\ faulty_count (fst (build_population 20 6 w_still)) = 6%nat
  /\ honest_count (fst (build_population 20 6 w_still)) = 14%nat
  /\ 0 <= 2 ^ 1024
  /\ in_unit_interval (float_literal 1 2) = true
  /\ simulate PBFT (2 ^ 1024) (float_literal 1 2) 100 w_still
     = (Raise OverflowError, w_still).
Proof.
  repeat split; try (vm_compute; reflexivity).
  vm_compute. discriminate.
Qed.

(** C6 (amended).  For a node count [0 <= n < 2^53] and a float ratio [r]
    with [0.0 <= r <= 1.0], line 63 returns [k], the floor of the binary64
    product of [float(n)], which is [n] exactly, and [r], with
    [0 <= k <= n]; the population [simulate] builds has exactly [k] faulty
    and [n - k] honest participants, whatever the shuffle; the two counts
    add up to [n]. *)
Theorem population_counts (n : Z) (r : spec_float) (w : world) :
  0 <= n < 2 ^ 53 -> in_unit_interval r = true ->
  exists x k,
    float_of_int n = Return x
    /\ (float_value x == inject_Z n)%Q
    /\ n_byzantine n r = Return k
    /\ k = Qfloor (float_value (float_mul x r))
    /\ 0 <= k <= n
    /\ let population := fst (build_population n k w) in
       Z.of_nat (faulty_count population) = k
       /\ Z.of_nat (honest_count population) = n - k
       /\ Z.of_nat (faulty_count population)
          + Z.of_nat (honest_count population) = n
       /\ forall P t,
            simulate P n r t w
            = drive P population t (snd (build_population n k w)).
Proof.
  intros Hn Hr.
  destruct (n_byzantine_unit n r Hn Hr) as (x & k & Hx & Hk & Hfloor & Hb).
  destruct (float_of_int_exact n Hn) as (x' & Hx' & Hval & _).
  assert (x' = x) by congruence. subst x'.
  exists x, k. split; [exact Hx|]. split; [exact Hval|]. split; [exact Hk|].
  split; [exact Hfloor|]. split; [exact Hb|].
  intros population. subst population.
  rewrite build_population_faulty, build_population_honest.
  unfold range_len. split; [lia|]. split; [lia|]. split; [lia|].
  intros P t. rewrite simulate_population, Hk. reflexivity.
Qed.

Lemma population_counts_witness :
  0 <= 20 < 2 ^ 53
  /\ in_unit_interval (float_literal 1 5) = true
  /\ exists x k,
       float_of_int 20 = Return x
       /\ (float_value x == inject_Z 20)%Q
       /\ n_byzantine 20 (float_literal 1 5) = Return k
       /\ k = Qfloor (float_value (float_mul x (float_literal 1 5)))
       /\ 0 <= k <= 20
       /\ let population := fst (build_population 20 k w_still) in
          Z.of_nat (faulty_count population) = k
          /\ Z.of_nat (honest_count population) = 20 - k
          /\ Z.of_nat (faulty_count population)
             + Z.of_nat (honest_count population) = 20
          /\ forall P t,
               simulate P 20 (float_literal 1 5) t w_still
               = drive P population t (snd (build_population 20 k w_still)).
Proof.
  assert (H20 : 0 <= 20 < 2 ^ 53) by lia.
  assert (Hr : in_unit_interval (float_literal 1 5) = true)
    by (vm_compute; reflexivity).
  split; [exact H20|]. split; [exact Hr|].
  exact (population_counts 20 (float_literal 1 5) w_still H20 Hr).
Defined.

(** C7. The trusted subset [CEPBFTProtocol] computes at construction holds
    exactly the honest participants of its population: a node is trusted iff
    it is in the population and not Byzantine, and the subset has as many
    members as the population has honest nodes.  This holds in any order of
    the population, and on a population built by [simulate] the size is the
    number of honest nodes built, whatever the count [k] of line 63 and
    whatever the shuffle. *)
Theorem trusted_nodes_exactly_honest (nodes : list Node) :
  let self := CEPBFTProtocol.init nodes in
  (forall node,
      node ∈ CEPBFTProtocol.trusted_nodes self
      <-> node ∈ nodes /\ is_byzantine node = false)
  /\ length (CEPBFTProtocol.trusted_nodes self) = honest_count nodes
  /\ (forall shuffled,
         shuffled ≡ₚ nodes ->
         length (CEPBFTProtocol.trusted_nodes (CEPBFTProtocol.init shuffled))
         = honest_count nodes)
  /\ (forall n k w,
         length (CEPBFTProtocol.trusted_nodes
                   (CEPBFTProtocol.init (fst (build_population n k w))))
         = range_len (n - k)).
Proof.
  cbn [CEPBFTProtocol.init CEPBFTProtocol.trusted_nodes].
  split; [|split; [|split]].
  - intros node. apply classify_nodes_elem.
  - apply classify_nodes_length.
  - intros shuffled Hperm. rewrite classify_nodes_length.
    apply honest_count_Permutation, Hperm.
  - intros n k w. rewrite classify_nodes_length.
    apply build_population_honest.
Qed.

(** C8. With [n_nodes = 20] and [byzantine_ratio = 0.2] line 63 gives 4, the
    population has exactly 4 faulty and 16 honest nodes, and
    [PBFTProtocol.consensus] returns [True] in every round whatever the
    faulty nodes vote: the 16 honest votes already satisfy
    [16 >= (2/3) * 20]. *)
Theorem twenty_nodes_one_fifth_always_approves (w : world) :
  n_byzantine 20 (float_literal 1 5) = Return 4
  /\ (forall P t,
         simulate P 20 (float_literal 1 5) t w
         = drive P (fst (build_population 20 4 w)) t
                 (snd (build_population 20 4 w)))
  /\ let population := fst (build_population 20 4 w) in
     faulty_count population = 4%nat
     /\ honest_count population = 16%nat
     /\ (forall transaction w',
            fst (PBFTProtocol.consensus (PBFTProtocol.init population)
                                        transaction w') = true)
     /\ (forall k c w',
            fst (rounds PBFT (construct PBFT population) k c w')
            = c + Z.of_nat k).
Proof.
  assert (Hk : n_byzantine 20 (float_literal 1 5) = Return 4)
    by (vm_compute; reflexivity).
  split; [exact Hk|].
  split; [intros P t; rewrite simulate_population, Hk; reflexivity|].
  intros population.
  assert (Hf : faulty_count population = 4%nat)
    by (subst population; rewrite build_population_faulty; reflexivity).
  assert (Hh : honest_count population = 16%nat)
    by (subst population; rewrite build_population_honest; reflexivity).
  assert (Hall : forall transaction w',
             fst (PBFTProtocol.consensus (PBFTProtocol.init population)
                                         transaction w') = true).
  { intros transaction w'. rewrite PBFT_consensus_run.
    cbn [fst PBFTProtocol.nodes]. apply quorum_spec.
    pose proof (collect_votes_honest_lower population transaction w').
    pose proof (counts_length population). lia. }
  split; [exact Hf|]. split; [exact Hh|]. split; [exact Hall|].
  apply (rounds_all_true PBFT). intros w'. apply Hall.
Qed.

(** C3 (as stated, refuted).  A negative node count and a ratio above 1 are
    both accepted: at [n_nodes = -5] and ratio 0.2 line 63 gives [-1] and
    the population is empty; at [n_nodes = 20] and ratio 1.5 it gives 30 and
    the population is thirty faulty nodes; [simulate] runs on either and
    returns. *)
Lemma invalid_parameters_accepted :
  -5 < 0
  /\ n_byzantine (-5) (float_literal 1 5) = Return (-1)
  /\ fst (build_population (-5) (-1) w_ticking) = []
  /\ (exists throughput,
         fst (simulate PBFT (-5) (float_literal 1 5) 100 w_ticking)
         = Return (throughput, 100, 100))
  /\ in_unit_interval (float_literal 3 2) = false
  /\ (float_value (float_literal 3 2) == 3 # 2)%Q
  /\ n_byzantine 20 (float_literal 3 2) = Return 30
  /\ fst (build_population 20 30 w_ticking) = replicate 30 (mkNode true)
  /\ (exists throughput,
         fst (simulate PBFT 20 (float_literal 3 2) 3 w_ticking)
         = Return (throughput, 0, 3)).
Proof.
  split; [lia|]. split; [vm_compute; reflexivity|].
  split; [vm_compute; reflexivity|].
  split; [eexists; vm_compute; reflexivity|].
  split; [vm_compute; reflexivity|].
  split; [vm_compute; reflexivity|].
  split; [vm_compute; reflexivity|].
  split; [vm_compute; reflexivity|].
  eexists; vm_compute; reflexivity.
Qed.

(** C3 (amended).  [simulate] checks neither the node count nor the ratio.
    Whatever they are, either line 63 returns a count [k], and then the
    builder completes with [max k 0] faulty and [max (n - k) 0] honest
    participants and [simulate] goes on to drive the protocol over that
    population; or line 63 raises, [ValueError] or [OverflowError] and
    nothing else, and [simulate] ends in that exception before it has
    created a node or drawn a number. *)
Theorem build_population_unvalidated (P : protocol_class) (n : Z)
  (r : spec_float) (t : Z) (w : world) :
  match n_byzantine n r with
  | Return k =>
      let population := fst (build_population n k w) in
      Z.of_nat (faulty_count population) = Z.max k 0
      /\ Z.of_nat (honest_count population) = Z.max (n - k) 0
      /\ simulate P n r t w
         = drive P population t (snd (build_population n k w))
  | Raise e =>
      (e = ValueError \/ e = OverflowError)
      /\ simulate P n r t w = (Raise e, w)
  end.
Proof.
  pose proof (simulate_population P n r t w) as Hsim.
  pose proof (n_byzantine_raises n r) as Hraise.
  destruct (n_byzantine n r) as [k|e].
  - cbv zeta. rewrite build_population_faulty, build_population_honest.
    unfold range_len. split; [lia|]. split; [lia|exact Hsim].
  - split; [apply Hraise; reflexivity|exact Hsim].
Qed.

(** C2 (as stated, refuted).  With no round to run and a clock that reads
    the same twice, [elapsed_time] is zero and [simulate] ends in the
    [ZeroDivisionError] of its division. *)
Lemma zero_elapsed_time_raises :
  n_byzantine 20 (float_literal 1 5) = Return 4
  /\ (elapsed_time_of PBFT (fst (build_population 20 4 w_still)) 0
        (snd (build_population 20 4 w_still)) == 0)%Q
  /\ fst (simulate PBFT 20 (float_literal 1 5) 0 w_still)
     = Raise ZeroDivisionError.
Proof. repeat split; vm_compute; reflexivity. Qed.

(** C2 (amended).  [drive] divides without a guard: when [elapsed_time] is
    zero the division raises [ZeroDivisionError] and no result is returned;
    when it is not zero, of either sign, the throughput is
    [correct_transactions / elapsed_time]. *)
Theorem throughput_division_unguarded (P : protocol_class)
  (nodes : list Node) (t : Z) (w : world) :
  fst (drive P nodes t w)
  = if Qeq_bool (elapsed_time_of P nodes t w) 0
    then Raise ZeroDivisionError
    else Return ((inject_Z (correct_transactions_of P nodes t w)
                  / elapsed_time_of P nodes t w)%Q,
                 correct_transactions_of P nodes t w, t).
Proof.
  unfold drive, elapsed_time_of, correct_transactions_of, py_truediv.
  rewrite !bind_run. cbv zeta.
  destruct (Qeq_bool _ _); reflexivity.
Qed.

(** A clock set back during the run: the denominator is negative and the
    division goes through. *)
Example negative_elapsed_time_divides :
  (elapsed_time_of PBFT two_honest_one_faulty 1 w_set_back < 0)%Q
  /\ exists throughput,
       fst (drive PBFT two_honest_one_faulty 1 w_set_back)
       = Return (throughput, 1, 1)
       /\ (throughput < 0)%Q.
Proof.
  split; [vm_compute; reflexivity|].
  eexists. split; vm_compute; reflexivity.
Qed.

(** C1 (as stated, refuted).  At ratio 0.2 of the sweep the first
    [simulate] call returns, and the population the second call builds is
    in another order than the first one's. *)
Lemma sweep_populations_differ :
  In (float_literal 1 5) byzantine_ratios
  /\ (exists v,
         fst (simulate PBFT n_nodes (float_literal 1 5) n_transactions
                w_still)
         = Return v)
  /\ exists pbft_nodes cepbft_nodes,
       sweep_populations (float_literal 1 5) w_still
       = Return (pbft_nodes, cepbft_nodes)
       /\ map is_byzantine pbft_nodes
          = [true; true; true; false; false; false; false; false; false;
             false; false; false; false; false; false; false; false; false;
             false; true]
       /\ map is_byzantine cepbft_nodes
          = [false; false; true; true; false; false; false; false; false;
             false; true; false; false; false; false; false; false; true;
             false; false]
       /\ pbft_nodes <> cepbft_nodes.
Proof.
  split; [simpl; tauto|].
  split; [eexists; vm_compute; reflexivity|].
  eexists. eexists.
  split; [vm_compute; reflexivity|].
  split; [vm_compute; reflexivity|].
  split; [vm_compute; reflexivity|].
  vm_compute. discriminate.
Qed.

(** C1 (amended).  In every iteration of the sweep each of the two
    [simulate] calls builds a population of its own from the same
    [n_nodes] and ratio: the two have the same participants up to order,
    hence the same numbers of faulty and of honest nodes; each is shuffled
    with its own draws.  Line 63 returns a count at every ratio of the
    sweep; at a ratio where it raises, no population is built. *)
Theorem sweep_populations_same_composition :
  Forall (fun ratio => exists k, n_byzantine n_nodes ratio = Return k)
         byzantine_ratios
  /\ (forall (ratio : spec_float) (e : exn) (w : world),
         n_byzantine n_nodes ratio = Raise e ->
         sweep_populations ratio w = Raise e
         /\ simulate PBFT n_nodes ratio n_transactions w = (Raise e, w))
  /\ forall (ratio : spec_float) (k : Z) (w : world),
       n_byzantine n_nodes ratio = Return k ->
       exists pbft_nodes cepbft_nodes,
         sweep_populations ratio w = Return (pbft_nodes, cepbft_nodes)
         /\ pbft_nodes ≡ₚ cepbft_nodes
         /\ faulty_count pbft_nodes = faulty_count cepbft_nodes
         /\ honest_count pbft_nodes = honest_count cepbft_nodes
         /\ fst (simulate PBFT n_nodes ratio n_transactions w)
            = fst (drive PBFT pbft_nodes n_transactions
                     (snd (build_population n_nodes k w)))
         /\ let w' := snd (simulate PBFT n_nodes ratio n_transactions w) in
            fst (simulate CEPBFT n_nodes ratio n_transactions w')
            = fst (drive CEPBFT cepbft_nodes n_transactions
                     (snd (build_population n_nodes k w'))).
Proof.
  split.
  { repeat (apply Forall_cons; split; [eexists; vm_compute; reflexivity|]).
    apply Forall_nil; exact I. }
  split.
  { intros ratio e w He. unfold sweep_populations.
    rewrite simulate_population, He. split; reflexivity. }
  intros ratio k w Hk. unfold sweep_populations. rewrite Hk.
  eexists. eexists. split; [reflexivity|].
  assert (Hperm : fst (build_population n_nodes k w)
                  ≡ₚ fst (build_population n_nodes k
                            (snd (simulate PBFT n_nodes ratio
                                    n_transactions w)))).
  { rewrite !build_population_Permutation. reflexivity. }
  split; [exact Hperm|].
  split; [apply faulty_count_Permutation, Hperm|].
  split; [apply honest_count_Permutation, Hperm|].
  split; rewrite simulate_population, Hk; reflexivity.
Qed.

(** C4. [PBFTProtocol.consensus] returns [True] iff the votes it collected
    satisfy [approved_votes >= (2/3) * len(nodes)] over the rationals, with
    no rounding of the bound: equivalently [3 * approved_votes >= 2 * len].
    On three nodes, two approvals give [True] and one gives [False]. *)
Theorem baseline_quorum_is_two_thirds (self : PBFTProtocol.t)
  (transaction : transaction_t) (w : world) :
  let size := length (PBFTProtocol.nodes self) in
  let approved_votes :=
    py_sum (fst (collect_votes (PBFTProtocol.nodes self) transaction w)) in
  let decision := fst (PBFTProtocol.consensus self transaction w) in
  (decision = true
   <-> ((2 # 3) * inject_Z (Z.of_nat size) <= inject_Z approved_votes)%Q)
  /\ (decision = true <-> 2 * Z.of_nat size <= 3 * approved_votes)
  /\ (size = 3%nat ->
      (approved_votes = 2 -> decision = true)
      /\ (approved_votes = 1 -> decision = false)).
Proof.
  intros size approved_votes decision.
  assert (Hrun : decision = quorum approved_votes size)
    by (subst decision; rewrite PBFT_consensus_run; reflexivity).
  rewrite Hrun. split; [apply quorum_real|]. split; [apply quorum_spec|].
  intros ->. split; intros ->; reflexivity.
Qed.

(** Three nodes, every Byzantine vote forced to [False]: two honest nodes
    carry the round, one does not. *)
Example three_nodes_two_approvals :
  fst (collect_votes two_honest_one_faulty tt w_dissent) = [true; false; true]
  /\ fst (PBFTProtocol.consensus (PBFTProtocol.init two_honest_one_faulty)
            tt w_dissent) = true.
Proof. split; vm_compute; reflexivity. Qed.

Example three_nodes_one_approval :
  fst (collect_votes one_honest_two_faulty tt w_dissent) = [false; true; false]
  /\ fst (PBFTProtocol.consensus (PBFTProtocol.init one_honest_two_faulty)
            tt w_dissent) = false.
Proof. split; vm_compute; reflexivity. Qed.

(** C5. A [CEPBFTProtocol] whose trusted subset is empty answers [False]
    and leaves the world as it found it: nothing is drawn and nothing is
    slept, whereas any call of [vote] draws from the generator.  So no vote
    is collected. *)
Theorem empty_trusted_set_returns_false (self : CEPBFTProtocol.t)
  (transaction : transaction_t) (w : world) :
  CEPBFTProtocol.trusted_nodes self = [] ->
  CEPBFTProtocol.consensus self transaction w = (false, w)
  /\ (forall node w0,
         (drawn w0 < drawn (snd (NodeM.vote node transaction w0)))%nat).
Proof.
  intros Hempty. split.
  - unfold CEPBFTProtocol.consensus. rewrite Hempty. reflexivity.
  - intros node w0. apply vote_draws.
Qed.

Lemma empty_trusted_set_returns_false_witness :
  CEPBFTProtocol.trusted_nodes
    (CEPBFTProtocol.init [mkNode true; mkNode true]) = []
  /\ CEPBFTProtocol.consensus
       (CEPBFTProtocol.init [mkNode true; mkNode true]) tt w_still
     = (false, w_still).
Proof.
  assert (Hempty : CEPBFTProtocol.trusted_nodes
                     (CEPBFTProtocol.init [mkNode true; mkNode true]) = [])
    by reflexivity.
  split; [exact Hempty|].
  exact (proj1 (empty_trusted_set_returns_false
                  (CEPBFTProtocol.init [mkNode true; mkNode true])
                  tt w_still Hempty)).
Defined.

(** C9. A [CEPBFTProtocol] whose trusted subset is not empty answers [True]
    at every call: every trusted node is honest, every honest vote is
    [True], so [approved_votes] is the size of the subset, which meets two
    thirds of itself. *)
Theorem nonempty_trusted_set_returns_true (nodes : list Node)
  (transaction : transaction_t) (w : world) :
  CEPBFTProtocol.trusted_nodes (CEPBFTProtocol.init nodes) <> [] ->
  let self := CEPBFTProtocol.init nodes in
  Forall (fun node => is_byzantine node = false)
         (CEPBFTProtocol.trusted_nodes self)
  /\ py_sum (fst (collect_votes (CEPBFTProtocol.trusted_nodes self)
                                transaction w))
     = Z.of_nat (length (CEPBFTProtocol.trusted_nodes self))
  /\ fst (CEPBFTProtocol.consensus self transaction w) = true.
Proof.
  intros Hne self.
  assert (Hhonest : Forall (fun node => is_byzantine node = false)
                           (CEPBFTProtocol.trusted_nodes self))
    by apply classify_nodes_honest.
  pose proof (collect_votes_all_honest _ transaction w Hhonest) as Hsum.
  split; [exact Hhonest|]. split; [exact Hsum|].
  rewrite (CEPBFT_consensus_run self transaction w Hne). cbn [fst].
  apply quorum_spec. rewrite Hsum. lia.
Qed.

Lemma nonempty_trusted_set_returns_true_witness :
  CEPBFTProtocol.trusted_nodes (CEPBFTProtocol.init one_honest_two_faulty)
  <> []
  /\ fst (CEPBFTProtocol.consensus
            (CEPBFTProtocol.init one_honest_two_faulty) tt w_dissent) = true.
Proof.
  assert (Hne : CEPBFTProtocol.trusted_nodes
                  (CEPBFTProtocol.init one_honest_two_faulty) <> [])
    by (vm_compute; discriminate).
  split; [exact Hne|].
  exact (proj2 (proj2 (nonempty_trusted_set_returns_true
                         one_honest_two_faulty tt w_dissent Hne))).
Defined.


(** * Further properties *)

(** ** What an operation leaves of the world *)

Lemma vote_oracles (node : Node) (transaction : transaction_t) (w : world) :
  entropy (snd (NodeM.vote node transaction w)) = entropy w
  /\ skew (snd (NodeM.vote node transaction w)) = skew w
  /\ reads (snd (NodeM.vote node transaction w)) = reads w.
Proof. destruct node as [[]]; repeat split; reflexivity. Qed.

Lemma vote_drawn (node : Node) (transaction : transaction_t) (w : world) :
  drawn (snd (NodeM.vote node transaction w))
  = (drawn w + if is_byzantine node then 2 else 1)%nat.
Proof. destruct node as [[]]; simpl; lia. Qed.

Lemma vote_now (node : Node) (transaction : transaction_t) (w : world) :
  (now (snd (NodeM.vote node transaction w))
   == now w + fst (NodeM.simulate_latency node w))%Q.
Proof. destruct node as [[]]; simpl; apply Qred_correct. Qed.

Lemma random_random_range (w : world) :
  (0 <= fst (random_random w) < 1)%Q.
Proof.
  unfold random_random. rewrite bind_run. cbn [fst ret].
  set (d := fst (next_draw w)).
  assert (Hd : (d mod 2 ^ 53 < 2 ^ 53)%N) by (apply N.mod_lt; discriminate).
  assert (Hp : Z.pos (2 ^ 53) = Z.of_N (2 ^ 53)) by reflexivity.
  unfold Qle, Qlt. cbn [Qnum Qden]. rewrite Hp.
  generalize dependent (d mod 2 ^ 53)%N. generalize (2 ^ 53)%N.
  intros m r Hr. lia.
Qed.

Lemma latency_range (node : Node) (w : world) :
  let latency := fst (NodeM.simulate_latency node w) in
  if is_byzantine node
  then ((1 # 20) <= latency < (1 # 5))%Q
  else ((1 # 100) <= latency < (1 # 20))%Q.
Proof.
  pose proof (random_random_range w) as Hu.
  unfold NodeM.simulate_latency, random_uniform.
  destruct (is_byzantine node); rewrite bind_run; cbn [fst ret]; lra.
Qed.

Lemma inject_nat_S (n : nat) :
  (inject_Z (Z.of_nat (S n)) == inject_Z (Z.of_nat n) + 1)%Q.
Proof.
  rewrite Nat2Z.inj_succ. unfold Z.succ. rewrite inject_Z_plus.
  apply Qeq_refl.
Qed.

Lemma inject_nat_nonneg (n : nat) : (0 <= inject_Z (Z.of_nat n))%Q.
Proof. unfold Qle. simpl. lia. Qed.

Lemma collect_votes_cons node nodes transaction w :
  snd (collect_votes (node :: nodes) transaction w)
  = snd (collect_votes nodes transaction
           (snd (NodeM.vote node transaction w))).
Proof. unfold collect_votes. rewrite mapM_cons. reflexivity. Qed.

Lemma collect_votes_oracles nodes transaction w :
  entropy (snd (collect_votes nodes transaction w)) = entropy w
  /\ skew (snd (collect_votes nodes transaction w)) = skew w
  /\ reads (snd (collect_votes nodes transaction w)) = reads w.
Proof.
  revert w. induction nodes as [|node nodes IH]; intros w.
  - repeat split; reflexivity.
  - rewrite collect_votes_cons.
    destruct (IH (snd (NodeM.vote node transaction w))) as (He & Hs & Hr).
    destruct (vote_oracles node transaction w) as (He' & Hs' & Hr').
    repeat split; congruence.
Qed.

Lemma collect_votes_drawn nodes transaction w :
  drawn (snd (collect_votes nodes transaction w))
  = (drawn w + length nodes + faulty_count nodes)%nat.
Proof.
  revert w. induction nodes as [|[b] nodes IH]; intros w.
  - simpl. lia.
  - rewrite collect_votes_cons, IH, vote_drawn.
    destruct b; simpl; lia.
Qed.

Lemma collect_votes_now nodes transaction w :
  let honest := inject_Z (Z.of_nat (honest_count nodes)) in
  let faulty := inject_Z (Z.of_nat (faulty_count nodes)) in
  let after := now (snd (collect_votes nodes transaction w)) in
  (now w + (1 # 100) * honest + (1 # 20) * faulty <= after
   /\ after <= now w + (1 # 20) * honest + (1 # 5) * faulty)%Q.
Proof.
  revert w. induction nodes as [|[b] nodes IH]; intros w.
  - cbn -[Qmult Qplus Qle]. change (inject_Z (Z.of_nat 0)) with 0%Q.
    split; lra.
  - cbv zeta in *. rewrite collect_votes_cons.
    specialize (IH (snd (NodeM.vote (mkNode b) transaction w))).
    pose proof (vote_now (mkNode b) transaction w) as Hnow.
    pose proof (latency_range (mkNode b) w) as Hlat.
    pose proof (inject_nat_nonneg (honest_count nodes)).
    pose proof (inject_nat_nonneg (faulty_count nodes)).
    destruct b; cbn [is_byzantine honest_count faulty_count] in *;
      rewrite ?inject_nat_S; split; lra.
Qed.

(** ** What a Byzantine node votes *)

Lemma vote_byzantine (node : Node) (transaction : transaction_t) (w : world) :
  is_byzantine node = true ->
  fst (NodeM.vote node transaction w) = N.even (entropy w (S (drawn w))).
Proof.
  destruct node as [b]. simpl. intros ->. simpl.
  set (d := entropy w (S (drawn w))).
  rewrite <- N.negb_odd, <- N.bit0_odd, N.bit0_eqb.
  assert (Hlt : (d mod 2 < 2)%N) by (apply N.mod_lt; discriminate).
  change (N.of_nat 2) with 2%N.
  destruct (d mod 2)%N as [|[p|p|]]; try reflexivity; lia.
Qed.

Lemma collect_votes_dissent nodes transaction w :
  always_dissent w ->
  py_sum (fst (collect_votes nodes transaction w))
  = Z.of_nat (honest_count nodes).
Proof.
  unfold collect_votes. revert w.
  induction nodes as [|[b] nodes IH]; intros w Hw; [reflexivity|].
  rewrite mapM_cons. cbn [fst py_sum honest_count is_byzantine].
  rewrite IH.
  - destruct b.
    + rewrite vote_byzantine by reflexivity.
      rewrite <- N.negb_odd, Hw. simpl. lia.
    + rewrite vote_honest by reflexivity. lia.
  - intros k. destruct (vote_oracles (mkNode b) transaction w) as (-> & _).
    apply Hw.
Qed.

Lemma PBFT_enough_honest nodes transaction w :
  2 * Z.of_nat (length nodes) <= 3 * Z.of_nat (honest_count nodes) ->
  fst (PBFTProtocol.consensus (PBFTProtocol.init nodes) transaction w)
  = true.
Proof.
  intros Hq. rewrite PBFT_consensus_run. cbn [fst PBFTProtocol.nodes].
  apply quorum_spec.
  pose proof (collect_votes_honest_lower nodes transaction w). lia.
Qed.

(** ** What a round costs *)

Lemma classify_nodes_counts (nodes : list Node) :
  honest_count (CEPBFTProtocol.classify_nodes nodes) = honest_count nodes
  /\ faulty_count (CEPBFTProtocol.classify_nodes nodes) = O.
Proof.
  assert (Hf : faulty_count (CEPBFTProtocol.classify_nodes nodes) = O).
  { pose proof (classify_nodes_honest nodes) as Hall.
    induction Hall as [|[b] l Hb _ IH]; [reflexivity|].
    simpl in Hb. subst b. exact IH. }
  pose proof (classify_nodes_length nodes) as Hlen.
  pose proof (counts_length (CEPBFTProtocol.classify_nodes nodes)) as Hsum.
  lia.
Qed.

Lemma PBFT_consensus_snd (self : PBFTProtocol.t) transaction w :
  snd (PBFTProtocol.consensus self transaction w)
  = snd (collect_votes (PBFTProtocol.nodes self) transaction w).
Proof. rewrite PBFT_consensus_run. reflexivity. Qed.

Lemma CEPBFT_consensus_snd (self : CEPBFTProtocol.t) transaction w :
  snd (CEPBFTProtocol.consensus self transaction w)
  = snd (collect_votes (CEPBFTProtocol.trusted_nodes self) transaction w).
Proof.
  destruct (CEPBFTProtocol.trusted_nodes self) as [|node rest] eqn:E.
  - unfold CEPBFTProtocol.consensus. rewrite E. reflexivity.
  - rewrite CEPBFT_consensus_run by congruence. rewrite E. reflexivity.
Qed.

Lemma rounds_bounds (P : protocol_class) (protocol : instance P) k c w :
  c <= fst (rounds P protocol k c w) <= c + Z.of_nat k.
Proof.
  revert c w. induction k as [|k IH]; intros c w.
  - simpl. lia.
  - cbn [rounds]. rewrite bind_run.
    destruct (fst (consensus P protocol tt w));
      match goal with |- _ <= fst (rounds _ _ _ ?c' ?w') <= _ =>
        specialize (IH c' w') end; lia.
Qed.

Lemma rounds_effect (P : protocol_class) (protocol : instance P)
  (lo hi : Q) :
  (forall w,
      entropy (snd (consensus P protocol tt w)) = entropy w
      /\ skew (snd (consensus P protocol tt w)) = skew w
      /\ reads (snd (consensus P protocol tt w)) = reads w
      /\ (now w + lo <= now (snd (consensus P protocol tt w))
          /\ now (snd (consensus P protocol tt w)) <= now w + hi)%Q) ->
  forall k c w,
    entropy (snd (rounds P protocol k c w)) = entropy w
    /\ skew (snd (rounds P protocol k c w)) = skew w
    /\ reads (snd (rounds P protocol k c w)) = reads w
    /\ (now w + inject_Z (Z.of_nat k) * lo
        <= now (snd (rounds P protocol k c w))
        /\ now (snd (rounds P protocol k c w))
           <= now w + inject_Z (Z.of_nat k) * hi)%Q.
Proof.
  intros Hstep. induction k as [|k IH]; intros c w.
  - cbn [rounds ret snd]. change (inject_Z (Z.of_nat 0)) with 0%Q.
    repeat split; try reflexivity; lra.
  - cbn [rounds]. rewrite bind_run.
    destruct (Hstep w) as (He & Hs & Hr & Hlo & Hhi).
    match goal with |- context [rounds _ _ _ ?c' ?w'] =>
      destruct (IH c' w') as (He' & Hs' & Hr' & Hlo' & Hhi') end.
    rewrite inject_nat_S.
    repeat split; try congruence; lra.
Qed.

Lemma shuffle_from_clock {A} (i : nat) (x : list A) (w : world) :
  entropy (snd (shuffle_from i x w)) = entropy w
  /\ skew (snd (shuffle_from i x w)) = skew w
  /\ reads (snd (shuffle_from i x w)) = reads w
  /\ now (snd (shuffle_from i x w)) = now w
  /\ drawn (snd (shuffle_from i x w)) = (drawn w + i)%nat.
Proof.
  revert x w. induction i as [|i IH]; intros x w.
  - simpl. repeat split; lia.
  - cbn [shuffle_from]. rewrite bind_run.
    match goal with |- context [shuffle_from i ?x' ?w'] =>
      destruct (IH x' w') as (He & Hs & Hr & Hn & Hd) end.
    rewrite He, Hs, Hr, Hn, Hd. simpl. repeat split; lia.
Qed.

Lemma drive_run (P : protocol_class) (nodes : list Node) (t : Z)
  (w : world) :
  fst (drive P nodes t w)
  = if Qeq_bool (elapsed_time_of P nodes t w) 0
    then Raise ZeroDivisionError
    else Return ((inject_Z (correct_transactions_of P nodes t w)
                  / elapsed_time_of P nodes t w)%Q,
                 correct_transactions_of P nodes t w, t).
Proof.
  unfold drive, elapsed_time_of, correct_transactions_of, py_truediv.
  rewrite !bind_run. cbv zeta.
  destruct (Qeq_bool _ _); reflexivity.
Qed.

Lemma drive_snd (P : protocol_class) (nodes : list Node) (t : Z)
  (w : world) :
  snd (drive P nodes t w)
  = snd (time_time
           (snd (rounds P (construct P nodes) (range_len t) 0
                   (snd (time_time w))))).
Proof.
  unfold drive, py_truediv. rewrite !bind_run. cbv zeta.
  destruct (Qeq_bool _ _); reflexivity.
Qed.

Lemma elapsed_time_bounds (P : protocol_class) (nodes : list Node)
  (lo hi : Q) (t : Z) (w : world) :
  (forall w,
      entropy (snd (consensus P (construct P nodes) tt w)) = entropy w
      /\ skew (snd (consensus P (construct P nodes) tt w)) = skew w
      /\ reads (snd (consensus P (construct P nodes) tt w)) = reads w
      /\ (now w + lo <= now (snd (consensus P (construct P nodes) tt w))
          /\ now (snd (consensus P (construct P nodes) tt w))
             <= now w + hi)%Q) ->
  (inject_Z (Z.of_nat (range_len t)) * lo + skew w (S (reads w))
   <= elapsed_time_of P nodes t w
   /\ elapsed_time_of P nodes t w
      <= inject_Z (Z.of_nat (range_len t)) * hi + skew w (S (reads w)))%Q.
Proof.
  intros Hstep. unfold elapsed_time_of.
  destruct (rounds_effect P (construct P nodes) lo hi Hstep
              (range_len t) 0 (snd (time_time w)))
    as (_ & Hs & Hr & Hlo & Hhi).
  set (w2 := snd (rounds P (construct P nodes) (range_len t) 0
                    (snd (time_time w)))) in *.
  unfold time_time at 1 3. cbn [fst].
  rewrite Hs, Hr. cbn [time_time snd skew reads now] in *.
  pose proof (Qred_correct (now w2 + skew w (S (reads w)))).
  pose proof (Qred_correct (now w + skew w (reads w))).
  change (fst (time_time w)) with (Qred (now w + skew w (reads w))).
  split; lra.
Qed.

Lemma PBFT_step (nodes : list Node) (w : world) :
  entropy (snd (consensus PBFT (construct PBFT nodes) tt w)) = entropy w
  /\ skew (snd (consensus PBFT (construct PBFT nodes) tt w)) = skew w
  /\ reads (snd (consensus PBFT (construct PBFT nodes) tt w)) = reads w
  /\ (now w + ((1 # 100) * inject_Z (Z.of_nat (honest_count nodes))
               + (1 # 20) * inject_Z (Z.of_nat (faulty_count nodes)))
      <= now (snd (consensus PBFT (construct PBFT nodes) tt w))
      /\ now (snd (consensus PBFT (construct PBFT nodes) tt w))
         <= now w + ((1 # 20) * inject_Z (Z.of_nat (honest_count nodes))
                     + (1 # 5) * inject_Z (Z.of_nat (faulty_count nodes))))%Q.
Proof.
  cbn [consensus construct PBFT]. rewrite PBFT_consensus_snd.
  cbn [PBFTProtocol.nodes].
  destruct (collect_votes_oracles nodes tt w) as (He & Hs & Hr).
  destruct (collect_votes_now nodes tt w) as (Hlo & Hhi).
  repeat split; try assumption; lra.
Qed.

Lemma CEPBFT_step (nodes : list Node) (w : world) :
  entropy (snd (consensus CEPBFT (construct CEPBFT nodes) tt w)) = entropy w
  /\ skew (snd (consensus CEPBFT (construct CEPBFT nodes) tt w)) = skew w
  /\ reads (snd (consensus CEPBFT (construct CEPBFT nodes) tt w)) = reads w
  /\ (now w + (1 # 100) * inject_Z (Z.of_nat (honest_count nodes))
      <= now (snd (consensus CEPBFT (construct CEPBFT nodes) tt w))
      /\ now (snd (consensus CEPBFT (construct CEPBFT nodes) tt w))
         <= now w + (1 # 20) * inject_Z (Z.of_nat (honest_count nodes)))%Q.
Proof.
  cbn [consensus construct CEPBFT]. rewrite CEPBFT_consensus_snd.
  cbn [CEPBFTProtocol.init CEPBFTProtocol.trusted_nodes].
  destruct (collect_votes_oracles (CEPBFTProtocol.classify_nodes nodes) tt w)
    as (He & Hs & Hr).
  destruct (collect_votes_now (CEPBFTProtocol.classify_nodes nodes) tt w)
    as (Hlo & Hhi).
  destruct (classify_nodes_counts nodes) as (Hh & Hf).
  rewrite Hh, Hf in Hlo, Hhi.
  change (inject_Z (Z.of_nat 0)) with 0%Q in Hlo, Hhi.
  repeat split; try assumption; lra.
Qed.

Lemma CEPBFT_decision (nodes : list Node) transaction w :
  fst (CEPBFTProtocol.consensus (CEPBFTProtocol.init nodes) transaction w)
  = negb (Nat.eqb (honest_count nodes) 0).
Proof.
  destruct (honest_count nodes) as [|h] eqn:Eh.
  - unfold CEPBFTProtocol.consensus.
    cbn [CEPBFTProtocol.init CEPBFTProtocol.trusted_nodes].
    rewrite classify_nodes_length, Eh. reflexivity.
  - assert (Hne : CEPBFTProtocol.trusted_nodes (CEPBFTProtocol.init nodes)
                  <> []).
    { cbn [CEPBFTProtocol.init CEPBFTProtocol.trusted_nodes]. intros E.
      pose proof (classify_nodes_length nodes) as Hl.
      rewrite E, Eh in Hl. discriminate. }
    rewrite (CEPBFT_consensus_run _ transaction w Hne). cbn [fst].
    cbn [CEPBFTProtocol.init CEPBFTProtocol.trusted_nodes].
    change (negb (S h =? 0)%nat) with true. apply quorum_spec.
    rewrite (collect_votes_all_honest _ transaction w
               (classify_nodes_honest nodes)). lia.
Qed.

Lemma rounds_constant (P : protocol_class) (protocol : instance P)
  (b : bool) :
  (forall w, fst (consensus P protocol tt w) = b) ->
  forall k c w,
    fst (rounds P protocol k c w) = if b then c + Z.of_nat k else c.
Proof.
  intros Hall. induction k as [|k IH]; intros c w.
  - simpl. destruct b; lia.
  - cbn [rounds]. rewrite bind_run, Hall, IH. destruct b; lia.
Qed.

Lemma build_population_clock (n k : Z) (w : world) :
  entropy (snd (build_population n k w)) = entropy w
  /\ skew (snd (build_population n k w)) = skew w
  /\ reads (snd (build_population n k w)) = reads w
  /\ now (snd (build_population n k w)) = now w
  /\ drawn (snd (build_population n k w))
     = (drawn w + (length (fresh_nodes n k) - 1))%nat.
Proof. apply shuffle_from_clock. Qed.

Lemma fresh_nodes_length (n k : Z) :
  Z.of_nat (length (fresh_nodes n k)) = Z.max k 0 + Z.max (n - k) 0.
Proof.
  unfold fresh_nodes. rewrite length_app, !length_replicate.
  unfold range_len. lia.
Qed.

(** * Beyond the claims *)

(** X1. [Node.simulate_latency]: an honest node's latency lies between
    0.01 and 0.05, a Byzantine node's between 0.05 and 0.2; so in any two
    states of the generator the honest latency is not the larger one. *)
Theorem latency_ranges_ordered (w1 w2 : world) :
  let honest := fst (NodeM.simulate_latency (mkNode false) w1) in
  let faulty := fst (NodeM.simulate_latency (mkNode true) w2) in
  ((1 # 100) <= honest <= (1 # 20))%Q
  /\ ((1 # 20) <= faulty <= (1 # 5))%Q
  /\ (honest <= faulty)%Q.
Proof.
  intros honest faulty.
  pose proof (latency_range (mkNode false) w1) as Hh.
  pose proof (latency_range (mkNode true) w2) as Hf.
  cbn [is_byzantine] in Hh, Hf. cbv zeta in Hh, Hf.
  fold honest in Hh. fold faulty in Hf.
  repeat split; lra.
Qed.

(** X2. [Node.vote] always sleeps before it answers: the clock moves on by
    the latency sampled, at least 0.01 s and at most 0.05 s for an honest
    node (whose answer is [True]), at least 0.05 s and at most 0.2 s for a
    Byzantine one; the honest vote takes one value from the generator, the
    Byzantine vote two. *)
Theorem vote_sleeps_then_answers (node : Node) (transaction : transaction_t)
  (w : world) :
  let w' := snd (NodeM.vote node transaction w) in
  if is_byzantine node
  then (now w + (1 # 20) <= now w' /\ now w' <= now w + (1 # 5))%Q
       /\ drawn w' = (drawn w + 2)%nat
  else fst (NodeM.vote node transaction w) = true
       /\ (now w + (1 # 100) <= now w' /\ now w' <= now w + (1 # 20))%Q
       /\ drawn w' = (drawn w + 1)%nat.
Proof.
  intros w'.
  pose proof (vote_now node transaction w) as Hnow. fold w' in Hnow.
  pose proof (latency_range node w) as Hlat. cbv zeta in Hlat.
  pose proof (vote_drawn node transaction w) as Hd. fold w' in Hd.
  destruct (is_byzantine node) eqn:Hb.
  - repeat split; [lra | lra | exact Hd].
  - split; [apply vote_honest, Hb|]. repeat split; [lra | lra | exact Hd].
Qed.

(** X3. One call of [PBFTProtocol.consensus] polls every node, faulty ones
    included: it takes one value from the generator per node and one more
    per Byzantine node, and the clock moves on by at least
    [0.01 * honest + 0.05 * faulty] and at most
    [0.05 * honest + 0.2 * faulty] seconds. *)
Theorem PBFT_round_cost (nodes : list Node) (transaction : transaction_t)
  (w : world) :
  let w' := snd (PBFTProtocol.consensus (PBFTProtocol.init nodes)
                   transaction w) in
  let honest := inject_Z (Z.of_nat (honest_count nodes)) in
  let faulty := inject_Z (Z.of_nat (faulty_count nodes)) in
  drawn w' = (drawn w + length nodes + faulty_count nodes)%nat
  /\ (now w + (1 # 100) * honest + (1 # 20) * faulty <= now w'
      /\ now w' <= now w + (1 # 20) * honest + (1 # 5) * faulty)%Q.
Proof.
  cbv zeta. rewrite PBFT_consensus_snd. cbn [PBFTProtocol.nodes]. split.
  - apply collect_votes_drawn.
  - apply collect_votes_now.
Qed.

(** X4. One call of [CEPBFTProtocol.consensus] polls the honest nodes only:
    it takes exactly one value from the generator per honest node of the
    population, none for a Byzantine node, and the clock moves on by at
    least [0.01 * honest] and at most [0.05 * honest] seconds. *)
Theorem CEPBFT_round_cost (nodes : list Node) (transaction : transaction_t)
  (w : world) :
  let w' := snd (CEPBFTProtocol.consensus (CEPBFTProtocol.init nodes)
                   transaction w) in
  let honest := inject_Z (Z.of_nat (honest_count nodes)) in
  drawn w' = (drawn w + honest_count nodes)%nat
  /\ (now w + (1 # 100) * honest <= now w'
      /\ now w' <= now w + (1 # 20) * honest)%Q.
Proof.
  cbv zeta. rewrite CEPBFT_consensus_snd.
  cbn [CEPBFTProtocol.init CEPBFTProtocol.trusted_nodes].
  destruct (classify_nodes_counts nodes) as (Hh & Hf).
  pose proof (classify_nodes_length nodes) as Hl.
  split.
  - rewrite collect_votes_drawn, Hl, Hf. lia.
  - pose proof (collect_votes_now (CEPBFTProtocol.classify_nodes nodes)
                  transaction w) as Hnow.
    cbv zeta in Hnow. rewrite Hh, Hf in Hnow.
    change (inject_Z (Z.of_nat 0)) with 0%Q in Hnow. lra.
Qed.

(** X5. [PBFTProtocol.consensus] approves whatever the Byzantine nodes vote
    exactly when the honest nodes alone make the quorum,
    [3 * honest >= 2 * len(nodes)]; below that, Byzantine votes of [False]
    block the round. *)
Theorem PBFT_always_approves_iff (nodes : list Node)
  (transaction : transaction_t) :
  (forall w,
      fst (PBFTProtocol.consensus (PBFTProtocol.init nodes) transaction w)
      = true)
  <-> 2 * Z.of_nat (length nodes) <= 3 * Z.of_nat (honest_count nodes).
Proof.
  split.
  - intros Hall.
    set (w := {| entropy := fun _ => 1%N; drawn := O; now := 0%Q;
                 skew := fun _ => 0%Q; reads := O |}).
    assert (Hw : always_dissent w) by (intros k; reflexivity).
    specialize (Hall w). rewrite PBFT_consensus_run in Hall.
    cbn [fst PBFTProtocol.nodes] in Hall.
    rewrite (collect_votes_dissent nodes transaction w Hw) in Hall.
    apply quorum_spec in Hall. exact Hall.
  - intros Hq w. apply PBFT_enough_honest, Hq.
Qed.

(** X6. The list comprehension of [consensus] asks every node once, in the
    order of the list: there is one vote per node, and the vote at the
    position of an honest node is [True]. *)
Theorem collect_votes_one_per_node (nodes : list Node)
  (transaction : transaction_t) (w : world) :
  let votes := fst (collect_votes nodes transaction w) in
  length votes = length nodes
  /\ forall i node,
       nodes !! i = Some node -> is_byzantine node = false ->
       votes !! i = Some true.
Proof.
  cbv zeta. split; [apply collect_votes_length|].
  unfold collect_votes. revert w.
  induction nodes as [|n0 nodes IH]; intros w i node Hi Hb; [discriminate|].
  rewrite mapM_cons. cbn [fst]. destruct i as [|i]; simpl in *.
  - injection Hi as ->. rewrite vote_honest by exact Hb. reflexivity.
  - apply IH with (node := node); assumption.
Qed.

(** X7. The loop of [simulate] counts at most one correct transaction per
    round: [correct_transactions] lies between 0 and [n_transactions], and
    is 0 when [n_transactions] is zero or negative. *)
Theorem correct_transactions_bounds (P : protocol_class)
  (nodes : list Node) (t : Z) (w : world) :
  0 <= correct_transactions_of P nodes t w <= Z.max t 0.
Proof.
  unfold correct_transactions_of.
  pose proof (rounds_bounds P (construct P nodes) (range_len t) 0
                (snd (time_time w))) as Hb.
  unfold range_len in *. lia.
Qed.

(** X8. Under [CEPBFTProtocol] the count is all or nothing: every round is
    correct when the population has an honest node, none is when it has
    not, whatever the generator delivers. *)
Theorem CEPBFT_all_or_nothing (nodes : list Node) (t : Z) (w : world) :
  correct_transactions_of CEPBFT nodes t w
  = if Nat.eqb (honest_count nodes) 0 then 0 else Z.max t 0.
Proof.
  unfold correct_transactions_of.
  rewrite (rounds_constant CEPBFT (construct CEPBFT nodes)
             (negb (Nat.eqb (honest_count nodes) 0))).
  - destruct (Nat.eqb (honest_count nodes) 0); unfold range_len; simpl; lia.
  - intros w0. apply CEPBFT_decision.
Qed.

(** X9. On a population with at least one honest node [CEPBFTProtocol]
    gets at least as many correct transactions as [PBFTProtocol], in any
    two runs of the same number of rounds. *)
Theorem CEPBFT_at_least_PBFT (nodes : list Node) (t : Z) (w1 w2 : world) :
  (1 <= honest_count nodes)%nat ->
  correct_transactions_of PBFT nodes t w1
  <= correct_transactions_of CEPBFT nodes t w2.
Proof.
  intros Hh.
  unfold correct_transactions_of at 2.
  rewrite (rounds_constant CEPBFT (construct CEPBFT nodes) true).
  - unfold correct_transactions_of.
    pose proof (rounds_bounds PBFT (construct PBFT nodes) (range_len t) 0
                  (snd (time_time w1))). lia.
  - intros w0. cbn [consensus construct CEPBFT].
    rewrite CEPBFT_decision.
    destruct (honest_count nodes); [lia | reflexivity].
Qed.

Lemma CEPBFT_at_least_PBFT_witness :
  (1 <= honest_count one_honest_two_faulty)%nat
  /\ correct_transactions_of PBFT one_honest_two_faulty 5 w_dissent
     <= correct_transactions_of CEPBFT one_honest_two_faulty 5 w_still.
Proof.
  assert (Hh : (1 <= honest_count one_honest_two_faulty)%nat)
    by (simpl; lia).
  split; [exact Hh|].
  exact (CEPBFT_at_least_PBFT one_honest_two_faulty 5 w_dissent w_still Hh).
Defined.

(** X10. Building the population costs no time, whatever count [k] line 63
    has given: the shuffle only draws from the generator, one value per
    element but the first, and the result is the nodes of the two [append]
    loops in some order. *)
Theorem build_population_shuffles_only (n k : Z) (w : world) :
  let population := fst (build_population n k w) in
  let w' := snd (build_population n k w) in
  population ≡ₚ fresh_nodes n k
  /\ Z.of_nat (length population) = Z.max k 0 + Z.max (n - k) 0
  /\ now w' = now w /\ reads w' = reads w
  /\ drawn w' = (drawn w + (length population - 1))%nat.
Proof.
  cbv zeta.
  pose proof (build_population_Permutation n k w) as Hperm.
  destruct (build_population_clock n k w) as (_ & _ & Hr & Hn & Hd).
  rewrite (Permutation_length Hperm), fresh_nodes_length.
  repeat split; assumption.
Qed.

(** X11. Line 63 for a node count [0 <= n < 2^53]: ratio 0.0 gives no
    faulty node, ratio 1.0 gives [n] of them, and every float ratio with
    [0.0 <= r <= 1.0] gives a count between 0 and [n]. *)
Theorem n_byzantine_ends (n : Z) :
  0 <= n < 2 ^ 53 ->
  n_byzantine n (float_literal 0 1) = Return 0
  /\ n_byzantine n (float_literal 1 1) = Return n
  /\ forall r,
       in_unit_interval r = true ->
       exists k, n_byzantine n r = Return k /\ 0 <= k <= n.
Proof.
  intros Hn. split; [apply n_byzantine_zero, Hn|].
  split; [apply n_byzantine_one, Hn|].
  intros r Hr.
  destruct (n_byzantine_unit n r Hn Hr) as (_ & k & _ & Hk & _ & Hb).
  exists k. split; assumption.
Qed.

Lemma n_byzantine_ends_witness :
  0 <= 20 < 2 ^ 53
  /\ n_byzantine 20 (float_literal 0 1) = Return 0
  /\ n_byzantine 20 (float_literal 1 1) = Return 20
  /\ forall r,
       in_unit_interval r = true ->
       exists k, n_byzantine 20 r = Return k /\ 0 <= k <= 20.
Proof.
  assert (Hn : 0 <= 20 < 2 ^ 53) by lia.
  split; [exact Hn|]. exact (n_byzantine_ends 20 Hn).
Defined.

(** ** When [simulate] returns *)

Lemma drive_returns (P : protocol_class) (nodes : list Node) (lo hi : Q)
  (t : Z) (w : world) :
  (forall w,
      entropy (snd (consensus P (construct P nodes) tt w)) = entropy w
      /\ skew (snd (consensus P (construct P nodes) tt w)) = skew w
      /\ reads (snd (consensus P (construct P nodes) tt w)) = reads w
      /\ (now w + lo <= now (snd (consensus P (construct P nodes) tt w))
          /\ now (snd (consensus P (construct P nodes) tt w))
             <= now w + hi)%Q) ->
  (0 < lo)%Q -> clock_forward w -> 1 <= t ->
  let elapsed := elapsed_time_of P nodes t w in
  let correct := correct_transactions_of P nodes t w in
  (0 < elapsed)%Q
  /\ fst (drive P nodes t w)
     = Return ((inject_Z correct / elapsed)%Q, correct, t)
  /\ (0 <= inject_Z correct / elapsed)%Q
  /\ (inject_Z correct / elapsed * lo <= 1)%Q.
Proof.
  intros Hstep Hlo Hclock Ht elapsed correct.
  destruct (elapsed_time_bounds P nodes lo hi t w Hstep) as (Hel & _).
  fold elapsed in Hel.
  pose proof (Hclock (S (reads w))) as Hskew.
  pose proof (rounds_bounds P (construct P nodes) (range_len t) 0
                (snd (time_time w))) as Hc.
  fold (correct_transactions_of P nodes t w) in Hc. fold correct in Hc.
  set (k := inject_Z (Z.of_nat (range_len t))) in *.
  assert (Hk : (1 <= k)%Q).
  { subst k. unfold range_len. rewrite Z2Nat.id by lia.
    unfold Qle. simpl. lia. }
  assert (Hck : (0 <= inject_Z correct <= k)%Q).
  { subst k. split.
    - unfold Qle. simpl. lia.
    - rewrite <- Zle_Qle. lia. }
  assert (Hklo : (lo <= k * lo)%Q).
  { rewrite <- (Qmult_1_l lo) at 1.
    apply Qmult_le_compat_r; [exact Hk | lra]. }
  assert (Hclo : (inject_Z correct * lo <= k * lo)%Q).
  { apply Qmult_le_compat_r; [tauto | lra]. }
  assert (Hpos : (0 < elapsed)%Q) by lra.
  assert (Hne : ~ (elapsed == 0)%Q) by lra.
  split; [exact Hpos|]. split; [|split].
  - rewrite drive_run. fold elapsed correct.
    destruct (Qeq_bool elapsed 0) eqn:E; [|reflexivity].
    apply Qeq_bool_eq in E. contradiction.
  - apply Qle_shift_div_l; [exact Hpos | lra].
  - assert (Heq : (inject_Z correct / elapsed * lo
                   == inject_Z correct * lo / elapsed)%Q)
      by (field; exact Hne).
    rewrite Heq. apply Qle_shift_div_r; [exact Hpos | lra].
Qed.

Lemma drive_skew (P : protocol_class) (nodes : list Node) (lo hi : Q)
  (t : Z) (w : world) :
  (forall w,
      entropy (snd (consensus P (construct P nodes) tt w)) = entropy w
      /\ skew (snd (consensus P (construct P nodes) tt w)) = skew w
      /\ reads (snd (consensus P (construct P nodes) tt w)) = reads w
      /\ (now w + lo <= now (snd (consensus P (construct P nodes) tt w))
          /\ now (snd (consensus P (construct P nodes) tt w))
             <= now w + hi)%Q) ->
  skew (snd (drive P nodes t w)) = skew w.
Proof.
  intros Hstep. rewrite drive_snd.
  destruct (rounds_effect P (construct P nodes) lo hi Hstep
              (range_len t) 0 (snd (time_time w))) as (_ & Hs & _).
  transitivity (skew (snd (rounds P (construct P nodes) (range_len t) 0
                             (snd (time_time w))))); [reflexivity|].
  rewrite Hs. reflexivity.
Qed.

Lemma simulate_clock_forward_PBFT (n : Z) (r : spec_float) (t : Z)
  (w : world) :
  clock_forward w -> clock_forward (snd (simulate PBFT n r t w)).
Proof.
  intros Hw j. rewrite simulate_population.
  destruct (n_byzantine n r) as [k|e]; [|apply Hw].
  rewrite (drive_skew PBFT _ _ _ t _ (PBFT_step _)).
  destruct (build_population_clock n k w) as (_ & -> & _). apply Hw.
Qed.

Lemma simulate_clock_forward_CEPBFT (n : Z) (r : spec_float) (t : Z)
  (w : world) :
  clock_forward w -> clock_forward (snd (simulate CEPBFT n r t w)).
Proof.
  intros Hw j. rewrite simulate_population.
  destruct (n_byzantine n r) as [k|e]; [|apply Hw].
  rewrite (drive_skew CEPBFT _ _ _ t _ (CEPBFT_step _)).
  destruct (build_population_clock n k w) as (_ & -> & _). apply Hw.
Qed.

Lemma build_population_clock_forward (n k : Z) (w : world) :
  clock_forward w -> clock_forward (snd (build_population n k w)).
Proof.
  intros Hw j. destruct (build_population_clock n k w) as (_ & -> & _).
  apply Hw.
Qed.

Lemma simulate_PBFT_ok (n : Z) (r : spec_float) (k t : Z) (w : world) :
  n_byzantine n r = Return k ->
  clock_forward w -> 1 <= n -> 1 <= t ->
  let population := fst (build_population n k w) in
  let w' := snd (build_population n k w) in
  let correct := correct_transactions_of PBFT population t w' in
  let throughput :=
    (inject_Z correct / elapsed_time_of PBFT population t w')%Q in
  fst (simulate PBFT n r t w) = Return (throughput, correct, t)
  /\ 0 <= correct <= t
  /\ (0 <= throughput)%Q
  /\ (throughput
      * ((1 # 100) * inject_Z (Z.of_nat (honest_count population))
         + (1 # 20) * inject_Z (Z.of_nat (faulty_count population)))
      <= 1)%Q.
Proof.
  intros Hk Hw Hn Ht population w' correct throughput.
  assert (Hw' : clock_forward w') by apply build_population_clock_forward, Hw.
  assert (Hlen : (1 <= length population)%nat).
  { subst population.
    pose proof (build_population_Permutation n k w) as Hperm.
    rewrite (Permutation_length Hperm).
    pose proof (fresh_nodes_length n k). lia. }
  pose proof (counts_length population) as Hsum.
  assert (Hlo : (0 < (1 # 100) * inject_Z (Z.of_nat (honest_count population))
                     + (1 # 20)
                       * inject_Z (Z.of_nat (faulty_count population)))%Q).
  { assert (H1 : (1 <= inject_Z (Z.of_nat (honest_count population))
                       + inject_Z (Z.of_nat (faulty_count population)))%Q).
    { rewrite <- inject_Z_plus, <- Nat2Z.inj_add.
      unfold Qle. simpl. lia. }
    pose proof (inject_nat_nonneg (honest_count population)).
    pose proof (inject_nat_nonneg (faulty_count population)).
    lra. }
  destruct (drive_returns PBFT population _ _ t w' (PBFT_step population)
              Hlo Hw' Ht) as (_ & Hret & Htp & Hcap).
  pose proof (rounds_bounds PBFT (construct PBFT population) (range_len t) 0
                (snd (time_time w'))) as Hc.
  fold (correct_transactions_of PBFT population t w') in Hc.
  rewrite simulate_population, Hk. fold population w'.
  split; [exact Hret|]. split; [unfold range_len in Hc; subst correct; lia|].
  split; [exact Htp | exact Hcap].
Qed.

(** X12. [simulate] with [PBFTProtocol], at least one node, at least one
    round and a clock that does not run backwards never divides by zero.
    When line 63 returns a count it returns, with [n_transactions] as
    passed, a count of correct transactions between 0 and [n_transactions],
    and a throughput that is not negative and at most one transaction per
    [0.01 * honest + 0.05 * faulty] seconds; when line 63 raises, it ends in
    that [ValueError] or [OverflowError]. *)
Theorem simulate_PBFT_returns (n : Z) (r : spec_float) (t : Z) (w : world) :
  clock_forward w -> 1 <= n -> 1 <= t ->
  fst (simulate PBFT n r t w) <> Raise ZeroDivisionError
  /\ match n_byzantine n r with
     | Return k =>
         let population := fst (build_population n k w) in
         exists throughput correct,
           fst (simulate PBFT n r t w) = Return (throughput, correct, t)
           /\ 0 <= correct <= t
           /\ (0 <= throughput)%Q
           /\ (throughput
               * ((1 # 100) * inject_Z (Z.of_nat (honest_count population))
                  + (1 # 20)
                    * inject_Z (Z.of_nat (faulty_count population)))
               <= 1)%Q
     | Raise e =>
         fst (simulate PBFT n r t w) = Raise e
         /\ (e = ValueError \/ e = OverflowError)
     end.
Proof.
  intros Hw Hn Ht.
  pose proof (simulate_PBFT_ok n r) as Hok.
  pose proof (simulate_population PBFT n r t w) as Hsim.
  pose proof (n_byzantine_raises n r) as Hraise.
  destruct (n_byzantine n r) as [k|e].
  - specialize (Hok k t w eq_refl Hw Hn Ht). cbv zeta in Hok.
    split; [destruct Hok as (-> & _); discriminate|].
    eexists. eexists. exact Hok.
  - rewrite Hsim. cbn [fst].
    destruct (Hraise e eq_refl) as [-> | ->].
    + split; [discriminate|]. split; [reflexivity|]. left; reflexivity.
    + split; [discriminate|]. split; [reflexivity|]. right; reflexivity.
Qed.

Lemma simulate_PBFT_returns_witness :
  clock_forward w_still /\ 1 <= 20 /\ 1 <= 100
  /\ fst (simulate PBFT 20 (float_literal 2 5) 100 w_still)
     <> Raise ZeroDivisionError
  /\ exists throughput correct,
       fst (simulate PBFT 20 (float_literal 2 5) 100 w_still)
       = Return (throughput, correct, 100)
       /\ 0 <= correct <= 100.
Proof.
  assert (Hw : clock_forward w_still)
    by (intros k; unfold Qle; simpl; lia).
  assert (Hn : 1 <= 20) by lia.
  assert (Ht : 1 <= 100) by lia.
  split; [exact Hw|]. split; [exact Hn|]. split; [exact Ht|].
  destruct (simulate_PBFT_returns 20 (float_literal 2 5) 100 w_still
              Hw Hn Ht) as (Hnz & Hret).
  split; [exact Hnz|].
  change (n_byzantine 20 (float_literal 2 5)) with (@Return Z 8) in Hret.
  cbv beta iota zeta in Hret.
  destruct Hret as (throughput & correct & Hret & Hc & _).
  exists throughput, correct. split; assumption.
Defined.

Lemma simulate_CEPBFT_ok (n : Z) (r : spec_float) (k t : Z) (w : world) :
  clock_forward w -> n_byzantine n r = Return k -> k < n -> 1 <= t ->
  let population := fst (build_population n k w) in
  let w' := snd (build_population n k w) in
  let throughput :=
    (inject_Z t / elapsed_time_of CEPBFT population t w')%Q in
  fst (simulate CEPBFT n r t w) = Return (throughput, t, t)
  /\ (0 < throughput)%Q
  /\ (throughput * inject_Z (n - k) <= 100)%Q.
Proof.
  intros Hw Hk Hh Ht population w' throughput.
  assert (Hw' : clock_forward w') by apply build_population_clock_forward, Hw.
  assert (Hcount : Z.of_nat (honest_count population) = n - k).
  { subst population. rewrite build_population_honest.
    unfold range_len. lia. }
  assert (Hq : (1 <= inject_Z (Z.of_nat (honest_count population)))%Q)
    by (rewrite Hcount; unfold Qle; simpl; lia).
  assert (Hlo : (0 < (1 # 100)
                     * inject_Z (Z.of_nat (honest_count population)))%Q)
    by lra.
  destruct (drive_returns CEPBFT population _ _ t w'
              (CEPBFT_step population) Hlo Hw' Ht)
    as (Hpos & Hret & _ & Hcap).
  assert (Hc : correct_transactions_of CEPBFT population t w' = t).
  { unfold correct_transactions_of.
    rewrite (rounds_constant CEPBFT (construct CEPBFT population) true).
    - unfold range_len. lia.
    - intros w0. cbn [consensus construct CEPBFT].
      rewrite CEPBFT_decision.
      destruct (honest_count population); [lia | reflexivity]. }
  rewrite Hc in Hret, Hcap. fold throughput in Hret, Hcap.
  rewrite simulate_population, Hk. fold population w'.
  split; [exact Hret|]. split.
  - apply Qlt_shift_div_l; [exact Hpos|].
    rewrite Qmult_0_l. unfold Qlt. simpl. lia.
  - rewrite <- Hcount. lra.
Qed.

(** X13. [simulate] with [CEPBFTProtocol], a count [k] of line 63 that
    leaves at least one honest node to build, at least one round and a clock
    that does not run backwards returns with every round correct and a
    positive throughput, at most one transaction per [0.01 * honest]
    seconds. *)
Theorem simulate_CEPBFT_returns (n : Z) (r : spec_float) (k t : Z)
  (w : world) :
  clock_forward w -> n_byzantine n r = Return k -> k < n -> 1 <= t ->
  exists throughput,
    fst (simulate CEPBFT n r t w) = Return (throughput, t, t)
    /\ (0 < throughput)%Q
    /\ (throughput * inject_Z (n - k) <= 100)%Q.
Proof.
  intros Hw Hk Hh Ht.
  pose proof (simulate_CEPBFT_ok n r k t w Hw Hk Hh Ht) as Hok.
  cbv zeta in Hok. eexists. exact Hok.
Qed.

Lemma simulate_CEPBFT_returns_witness :
  clock_forward w_still
  /\ n_byzantine 20 (float_literal 2 5) = Return 8 /\ 8 < 20 /\ 1 <= 100
  /\ exists throughput,
       fst (simulate CEPBFT 20 (float_literal 2 5) 100 w_still)
       = Return (throughput, 100, 100)
       /\ (0 < throughput)%Q.
Proof.
  assert (Hw : clock_forward w_still)
    by (intros k; unfold Qle; simpl; lia).
  assert (Hk : n_byzantine 20 (float_literal 2 5) = Return 8)
    by (vm_compute; reflexivity).
  assert (Hh : 8 < 20) by lia.
  assert (Ht : 1 <= 100) by lia.
  split; [exact Hw|]. split; [exact Hk|]. split; [exact Hh|].
  split; [exact Ht|].
  destruct (simulate_CEPBFT_returns 20 (float_literal 2 5) 8 100 w_still
              Hw Hk Hh Ht)
    as (throughput & Hret & Hpos & _).
  exists throughput. split; assumption.
Defined.


(** ** The sweep *)

Lemma sweep_body_ok (ratio : spec_float) (k : Z) (acc : series)
  (w : world) :
  clock_forward w -> n_byzantine n_nodes ratio = Return k -> k < n_nodes ->
  exists row,
    fst (sweep_body ratio acc w) = Return (extend acc [row])
    /\ sweep_row_ok ratio row
    /\ clock_forward (snd (sweep_body ratio acc w)).
Proof.
  intros Hw Hk Hh.
  assert (Hn : 1 <= n_nodes) by (unfold n_nodes; lia).
  assert (Ht : 1 <= n_transactions) by (unfold n_transactions; lia).
  pose proof (simulate_PBFT_ok n_nodes ratio k n_transactions w Hk Hw Hn Ht)
    as Hpbft. cbv zeta in Hpbft.
  destruct Hpbft as (Hret1 & Hc1 & Htp1 & _).
  set (population := fst (build_population n_nodes k w)) in *.
  set (w0 := snd (build_population n_nodes k w)) in *.
  set (pbft_correct :=
         correct_transactions_of PBFT population n_transactions w0) in *.
  set (pbft_tp := (inject_Z pbft_correct
                   / elapsed_time_of PBFT population n_transactions w0)%Q)
    in *.
  set (w1 := snd (simulate PBFT n_nodes ratio n_transactions w)).
  assert (Hw1 : clock_forward w1)
    by apply simulate_clock_forward_PBFT, Hw.
  pose proof (simulate_CEPBFT_ok n_nodes ratio k n_transactions w1 Hw1 Hk Hh
                Ht)
    as Hce. cbv zeta in Hce. destruct Hce as (Hret2 & Htp2 & _).
  set (cepbft_tp :=
         (inject_Z n_transactions
          / elapsed_time_of CEPBFT
              (fst (build_population n_nodes k w1)) n_transactions
              (snd (build_population n_nodes k w1)))%Q) in *.
  exists (pbft_tp, cepbft_tp,
          (inject_Z pbft_correct / inject_Z 100)%Q,
          (inject_Z 100 / inject_Z 100)%Q).
  assert (Hrun : sweep_body ratio acc w
                 = (Return (extend acc
                              [(pbft_tp, cepbft_tp,
                                (inject_Z pbft_correct / inject_Z 100)%Q,
                                (inject_Z 100 / inject_Z 100)%Q)]),
                    snd (simulate CEPBFT n_nodes ratio n_transactions w1))).
  { unfold sweep_body. rewrite bind_run. fold w1. rewrite Hret1.
    cbv beta iota. rewrite bind_run. rewrite Hret2. reflexivity. }
  rewrite Hrun. cbn [fst snd].
  split; [reflexivity|]. split.
  - unfold sweep_row_ok. split; [exact Htp1|]. split; [exact Htp2|].
    split; [reflexivity|].
    exists pbft_correct. split; [reflexivity|].
    split; [unfold n_transactions in Hc1; exact Hc1|].
    intros k' Hk' Hnb Hq.
    assert (k' = k) by congruence. subst k'.
    subst pbft_correct. unfold correct_transactions_of.
    rewrite (rounds_constant PBFT (construct PBFT population) true).
    + reflexivity.
    + intros w2. cbn [consensus construct PBFT].
      apply PBFT_enough_honest.
      pose proof (build_population_Permutation n_nodes k w) as Hperm.
      fold population in Hperm.
      rewrite (Permutation_length Hperm).
      rewrite (honest_count_Permutation _ _ Hperm), fresh_nodes_honest.
      pose proof (fresh_nodes_length n_nodes k).
      unfold range_len. lia.
  - apply simulate_clock_forward_CEPBFT, Hw1.
Qed.

Lemma extend_extend (acc : series) (rows1 rows2 : list (Q * Q * Q * Q)) :
  extend (extend acc rows1) rows2 = extend acc (rows1 ++ rows2).
Proof.
  unfold extend. cbn [pbft_throughputs cepbft_throughputs
                      pbft_correct_ratios cepbft_correct_ratios].
  rewrite !map_app, <- !app_assoc. reflexivity.
Qed.

Lemma sweep_loop_ok (ratios : list spec_float) (acc : series) (w : world) :
  clock_forward w ->
  Forall (fun ratio =>
            exists k, n_byzantine n_nodes ratio = Return k /\ k < n_nodes)
         ratios ->
  exists rows,
    fst (sweep_loop ratios acc w) = Return (extend acc rows)
    /\ Forall2 sweep_row_ok ratios rows.
Proof.
  revert acc w. induction ratios as [|ratio rest IH]; intros acc w Hw Hall.
  - exists []. split; [|constructor].
    unfold extend. cbn [sweep_loop ret fst map]. rewrite !app_nil_r.
    destruct acc; reflexivity.
  - inversion Hall as [|? ? (k & Hk & Hratio) Hrest]; subst.
    destruct (sweep_body_ok ratio k acc w Hw Hk Hratio)
      as (row & Hret & Hrow & Hw').
    destruct (IH (extend acc [row]) _ Hw' Hrest) as (rows & Hret' & Hrows).
    exists (row :: rows). split; [|constructor; assumption].
    cbn [sweep_loop]. rewrite bind_run, Hret. cbv beta iota.
    rewrite Hret', extend_extend. reflexivity.
Qed.

(** X14. The sweep of the script, run with a clock that does not run
    backwards, never raises: it ends with five entries in each of the four
    series, one per ratio and in the order of [byzantine_ratios].  Every
    CE-PBFT correct ratio is 1 and every CE-PBFT throughput is positive;
    the PBFT correct ratio is 1 at the ratios 0.0, 0.1, 0.2 and 0.3, where
    the honest nodes alone make the quorum, and between 0 and 1 at 0.4. *)
Theorem sweep_completes (w : world) :
  clock_forward w ->
  exists s,
    fst (sweep w) = Return s
    /\ length (pbft_throughputs s) = 5%nat
    /\ length (cepbft_throughputs s) = 5%nat
    /\ length (pbft_correct_ratios s) = 5%nat
    /\ length (cepbft_correct_ratios s) = 5%nat
    /\ Forall (fun q => (0 <= q)%Q) (pbft_throughputs s)
    /\ Forall (fun q => (0 < q)%Q) (cepbft_throughputs s)
    /\ Forall (fun q => (q == 1)%Q) (cepbft_correct_ratios s)
    /\ Forall (fun q => (q == 1)%Q) (take 4 (pbft_correct_ratios s))
    /\ Forall (fun q => (0 <= q <= 1)%Q) (pbft_correct_ratios s).
Proof.
  intros Hw.
  assert (Hall : Forall (fun ratio =>
                           exists k, n_byzantine n_nodes ratio = Return k
                                     /\ k < n_nodes)
                        byzantine_ratios).
  { repeat (apply Forall_cons; split;
            [eexists; split; [vm_compute; reflexivity|reflexivity]|]).
    apply Forall_nil; exact I. }
  destruct (sweep_loop_ok byzantine_ratios
              {| pbft_throughputs := []; cepbft_throughputs := [];
                 pbft_correct_ratios := []; cepbft_correct_ratios := [] |}
              w Hw Hall) as (rows & Hret & Hrows).
  unfold byzantine_ratios in Hrows.
  repeat match goal with
         | H : Forall2 _ (_ :: _) _ |- _ =>
             apply Forall2_cons_inv_l in H;
             destruct H as ([[[? ?] ?] ?] & ? & H & ? & ->)
         | H : Forall2 _ [] _ |- _ => apply Forall2_nil_inv_l in H; subst
         end.
  repeat match goal with
         | H : sweep_row_ok _ _ |- _ =>
             destruct H as (? & ? & -> & ? & -> & ? & ?)
         end.
  assert (Hone : (inject_Z 100 / inject_Z 100 == 1)%Q) by reflexivity.
  assert (Hratio : forall c, 0 <= c <= 100 ->
                     (0 <= inject_Z c / inject_Z 100 <= 1)%Q).
  { intros c Hc. split.
    - apply Qle_shift_div_l; [reflexivity|]. rewrite Qmult_0_l.
      unfold Qle. simpl. lia.
    - apply Qle_shift_div_r; [reflexivity|]. rewrite Qmult_1_l.
      rewrite <- Zle_Qle. lia. }
  repeat match goal with
         | H : forall k : Z, _ -> _ -> _ -> ?c = 100 |- _ =>
             first [ assert (c = 100)
                       by (eapply H;
                           [ vm_compute; reflexivity
                           | apply Z.leb_le; vm_compute; reflexivity
                           | apply Z.leb_le; vm_compute; reflexivity ]);
                     subst c; clear H
                   | clear H ]
         end.
  eexists. split; [exact Hret|].
  cbn [extend pbft_throughputs cepbft_throughputs pbft_correct_ratios
       cepbft_correct_ratios map fst snd app length take].
  repeat split; try reflexivity.
  all: repeat (apply Forall_cons; split); try apply Forall_nil; auto.
Qed.

Lemma sweep_completes_witness :
  clock_forward w_ticking
  /\ exists s, fst (sweep w_ticking) = Return s
               /\ length (pbft_throughputs s) = 5%nat.
Proof.
  assert (Hw : clock_forward w_ticking)
    by (intros k; unfold Qle; simpl; lia).
  split; [exact Hw|].
  destruct (sweep_completes w_ticking Hw) as (s & Hret & Hlen & _).
  exists s. split; assumption.
Defined.

Lemma rounds_invariant (P : protocol_class) (protocol : instance P)
  (Inv : world -> Prop) (b : bool) :
  (forall w, Inv w ->
             fst (consensus P protocol tt w) = b
             /\ Inv (snd (consensus P protocol tt w))) ->
  forall k c w,
    Inv w -> fst (rounds P protocol k c w) = if b then c + Z.of_nat k else c.
Proof.
  intros Hstep. induction k as [|k IH]; intros c w Hw.
  - simpl. destruct b; lia.
  - cbn [rounds]. rewrite bind_run.
    destruct (Hstep w Hw) as (Hb & Hw').
    rewrite Hb, IH by exact Hw'. destruct b; lia.
Qed.

(** X15. With [n_transactions] zero or negative [simulate] runs no round:
    nobody is polled, the count is 0 and the time elapsed is what the clock
    moved by itself between its two readings.  If that is nothing the
    division raises [ZeroDivisionError]; otherwise the throughput is 0. *)
Theorem no_rounds_no_votes (P : protocol_class) (nodes : list Node) (t : Z)
  (w : world) :
  t <= 0 ->
  correct_transactions_of P nodes t w = 0
  /\ (elapsed_time_of P nodes t w == skew w (S (reads w)))%Q
  /\ drawn (snd (drive P nodes t w)) = drawn w
  /\ ((skew w (S (reads w)) == 0)%Q ->
      fst (drive P nodes t w) = Raise ZeroDivisionError)
  /\ (~ (skew w (S (reads w)) == 0)%Q ->
      exists throughput,
        fst (drive P nodes t w) = Return (throughput, 0, t)
        /\ (throughput == 0)%Q).
Proof.
  intros Ht.
  assert (Hk : range_len t = O) by (unfold range_len; lia).
  assert (Hc : correct_transactions_of P nodes t w = 0)
    by (unfold correct_transactions_of; rewrite Hk; reflexivity).
  assert (He : (elapsed_time_of P nodes t w == skew w (S (reads w)))%Q).
  { unfold elapsed_time_of. rewrite Hk. cbn [rounds ret snd time_time fst].
    cbn [now skew reads].
    pose proof (Qred_correct (now w + skew w (reads w))).
    pose proof (Qred_correct (Qred (now w + skew w (reads w))
                              + skew w (S (reads w)))).
    lra. }
  split; [exact Hc|]. split; [exact He|]. split; [|split].
  - rewrite drive_snd, Hk. reflexivity.
  - intros Hz. rewrite drive_run.
    destruct (Qeq_bool (elapsed_time_of P nodes t w) 0) eqn:E;
      [reflexivity|].
    apply Qeq_bool_neq in E. exfalso. apply E. rewrite He. exact Hz.
  - intros Hnz. rewrite drive_run, Hc.
    destruct (Qeq_bool (elapsed_time_of P nodes t w) 0) eqn:E.
    + apply Qeq_bool_eq in E. rewrite He in E. contradiction.
    + eexists. split; [reflexivity|].
      unfold Qdiv. apply Qmult_0_l.
Qed.

Lemma no_rounds_no_votes_witness :
  0 <= 0
  /\ correct_transactions_of PBFT two_honest_one_faulty 0 w_still = 0
  /\ fst (drive PBFT two_honest_one_faulty 0 w_still)
     = Raise ZeroDivisionError.
Proof.
  assert (Ht : 0 <= 0) by lia.
  split; [exact Ht|].
  destruct (no_rounds_no_votes PBFT two_honest_one_faulty 0 w_still Ht)
    as (Hc & _ & _ & Hraise & _).
  split; [exact Hc|]. apply Hraise. reflexivity.
Defined.

(** X16. When every Byzantine vote is [False], a whole run of
    [PBFTProtocol] is decided by the honest nodes: every round is correct
    if [3 * honest >= 2 * len(nodes)], and none is otherwise. *)
Theorem PBFT_blocked_run (nodes : list Node) (t : Z) (w : world) :
  always_dissent w ->
  correct_transactions_of PBFT nodes t w
  = if 2 * Z.of_nat (length nodes) <=? 3 * Z.of_nat (honest_count nodes)
    then Z.max t 0 else 0.
Proof.
  intros Hw. unfold correct_transactions_of.
  rewrite (rounds_invariant PBFT (construct PBFT nodes) always_dissent
             (2 * Z.of_nat (length nodes)
              <=? 3 * Z.of_nat (honest_count nodes))).
  - destruct (_ <=? _); unfold range_len; lia.
  - intros w0 Hw0. split.
    + cbn [consensus construct PBFT]. rewrite PBFT_consensus_run.
      cbn [fst PBFTProtocol.nodes].
      rewrite (collect_votes_dissent nodes tt w0 Hw0).
      destruct (Z.leb_spec (2 * Z.of_nat (length nodes))
                  (3 * Z.of_nat (honest_count nodes))) as [Hq|Hq].
      * apply quorum_spec. exact Hq.
      * apply not_true_is_false. rewrite quorum_spec. lia.
    + intros k. destruct (PBFT_step nodes w0) as (-> & _). apply Hw0.
  - intros k. apply Hw.
Qed.

Lemma PBFT_blocked_run_witness :
  always_dissent w_dissent
  /\ correct_transactions_of PBFT one_honest_two_faulty 5 w_dissent = 0.
Proof.
  assert (Hw : always_dissent w_dissent).
  { intros k. unfold w_dissent. cbn [entropy].
    rewrite N.add_comm. apply N.odd_add_mul_2. }
  split; [exact Hw|].
  exact (PBFT_blocked_run one_honest_two_faulty 5 w_dissent Hw).
Defined.

(** X17. The quorum test [approved_votes >= (2/3) * size] is met exactly
    from [ceil (2 * size / 3)] approvals on, so it is monotone in the
    number of approvals and always met by a unanimous vote. *)
Theorem quorum_threshold_ceiling (approved_votes : Z) (size : nat) :
  (quorum approved_votes size = true
   <-> (2 * Z.of_nat size + 2) / 3 <= approved_votes)
  /\ (forall more, approved_votes <= more ->
                   quorum approved_votes size = true ->
                   quorum more size = true)
  /\ quorum (Z.of_nat size) size = true.
Proof.
  split; [|split].
  - rewrite quorum_spec.
    pose proof (Z.div_mod (2 * Z.of_nat size + 2) 3 ltac:(lia)) as Hdm.
    pose proof (Z.mod_pos_bound (2 * Z.of_nat size + 2) 3 ltac:(lia)) as Hm.
    split; intros H; lia.
  - intros more Hle. rewrite !quorum_spec. lia.
  - apply quorum_spec. lia.
Qed.
